(** * MoE performance widget: cost model, crossover scan and DBO schedule

    A shallow embedding of the numeric core of
    [public/scripts/moe-widget.js]:

    - Section 3 of the script, the performance model
      ([calculateStragglerFactor], [calculateBytesPerToken],
      [calculateDispatchTimeMs], [calculateComputeTimeMs],
      [calculateMoETimings]);
    - the crossover scan of [DeepEPRenderer._drawCurveLines];
    - [TimelineRenderer._buildSchedule] and
      [TimelineRenderer._calculateTotalDuration];
    - the third self-test of [runSelfTests];
    - Section 4, the DeepEP model ([DeepEPModel.getParameters],
      [calculateCommTimeMs], [pickOptimalMode]), the sampling of
      [DeepEPRenderer._generateCurveData] and the figures of
      [DeepEPRenderer._updateMetrics];
    - [AnimationController.reset] and [tick], and the playhead time of
      [animationTick];
    - [ControlState.getTokenCount] and [getModelParameters];
    - [SVGUtils.pruneTicks].

    Numbers.  A JavaScript number is modelled by [Js.num]: a real number, or
    one of the three special values [+Infinity], [-Infinity] and [NaN], with
    the IEEE-754 rules for the special values (division by zero, [Inf - Inf],
    [0 * Inf], comparisons with [NaN], ...).  Finite values are exact reals:
    rounding to binary64, overflow of finite operands and the sign of zero
    are not modelled, so [x / 0] takes the sign of [x] alone. *)

From Stdlib Require Import String.
From Stdlib Require Import Reals Lra Lia Psatz List Bool Arith ZArith.
Import ListNotations.

Local Open Scope R_scope.

(** ** JavaScript numbers *)

Module Js.

Inductive num : Type :=
| Fin (r : R)
| PInf
| NInf
| NaN.

(** The infinity that carries the sign of [r]; [NaN] for [r = 0]
    (the value of [r * Infinity], and of [r / 0]). *)
Definition signed_inf (r : R) : num :=
  if Req_dec_T r 0 then NaN
  else if Rlt_dec 0 r then PInf else NInf.

Definition neg (x : num) : num :=
  match x with
  | Fin a => Fin (- a)
  | PInf => NInf
  | NInf => PInf
  | NaN => NaN
  end.

Definition add (x y : num) : num :=
  match x, y with
  | NaN, _ | _, NaN => NaN
  | Fin a, Fin b => Fin (a + b)
  | PInf, NInf | NInf, PInf => NaN
  | PInf, _ | _, PInf => PInf
  | NInf, _ | _, NInf => NInf
  end.

Definition sub (x y : num) : num := add x (neg y).

Definition mul (x y : num) : num :=
  match x, y with
  | NaN, _ | _, NaN => NaN
  | Fin a, Fin b => Fin (a * b)
  | Fin a, PInf | PInf, Fin a => signed_inf a
  | Fin a, NInf | NInf, Fin a => signed_inf (- a)
  | PInf, PInf | NInf, NInf => PInf
  | PInf, NInf | NInf, PInf => NInf
  end.

Definition div (x y : num) : num :=
  match x, y with
  | NaN, _ | _, NaN => NaN
  | Fin a, Fin b => if Req_dec_T b 0 then signed_inf a else Fin (a / b)
  | Fin _, PInf | Fin _, NInf => Fin 0
  | PInf, Fin b => if Rlt_dec b 0 then NInf else PInf
  | NInf, Fin b => if Rlt_dec b 0 then PInf else NInf
  | PInf, PInf | PInf, NInf | NInf, PInf | NInf, NInf => NaN
  end.

(** [Math.max] of two arguments. *)
Definition max (x y : num) : num :=
  match x, y with
  | NaN, _ | _, NaN => NaN
  | PInf, _ | _, PInf => PInf
  | NInf, z | z, NInf => z
  | Fin a, Fin b => Fin (Rmax a b)
  end.

(** [Math.abs]. *)
Definition abs (x : num) : num :=
  match x with
  | Fin a => Fin (Rabs a)
  | PInf | NInf => PInf
  | NaN => NaN
  end.

(** [Math.sqrt]. *)
Definition sqrt (x : num) : num :=
  match x with
  | Fin a => if Rlt_dec a 0 then NaN else Fin (R_sqrt.sqrt a)
  | PInf => PInf
  | NInf | NaN => NaN
  end.

(** [Math.log], the natural logarithm. *)
Definition log (x : num) : num :=
  match x with
  | Fin a =>
      if Rlt_dec a 0 then NaN
      else if Req_dec_T a 0 then NInf else Fin (ln a)
  | PInf => PInf
  | NInf | NaN => NaN
  end.

(** The base-2 logarithm of a positive real. *)
Definition Rlog2 (a : R) : R := ln a / ln 2.

(** [Math.log2]. *)
Definition log2 (x : num) : num :=
  match x with
  | Fin a =>
      if Rlt_dec a 0 then NaN
      else if Req_dec_T a 0 then NInf else Fin (Rlog2 a)
  | PInf => PInf
  | NInf | NaN => NaN
  end.

(** [Math.exp]. *)
Definition exp (x : num) : num :=
  match x with
  | Fin a => Fin (Rtrigo_def.exp a)
  | PInf => PInf
  | NInf => Fin 0
  | NaN => NaN
  end.

(** [x < y]. *)
Definition ltb (x y : num) : bool :=
  match x, y with
  | NaN, _ | _, NaN => false
  | Fin a, Fin b => if Rlt_dec a b then true else false
  | NInf, Fin _ | NInf, PInf | Fin _, PInf => true
  | _, _ => false
  end.

(** [x <= y]. *)
Definition leb (x y : num) : bool :=
  match x, y with
  | NaN, _ | _, NaN => false
  | Fin a, Fin b => if Rle_dec a b then true else false
  | NInf, _ | _, PInf => true
  | _, _ => false
  end.

(** [x >= y]. *)
Definition geb (x y : num) : bool := leb y x.

(** [x === y] on numbers: [NaN] is not equal to itself. *)
Definition eqb (x y : num) : bool :=
  match x, y with
  | Fin a, Fin b => if Req_dec_T a b then true else false
  | PInf, PInf | NInf, NInf => true
  | _, _ => false
  end.

(** The global [isFinite]. *)
Definition isFinite (x : num) : bool :=
  match x with
  | Fin _ => true
  | _ => false
  end.

(** The result of a call: a returned value or a thrown exception. *)
Inductive error : Type :=
| TypeError.

Inductive completion (A : Type) : Type :=
| Returns (v : A)
| Throws (e : error).

Arguments Returns {A} v.
Arguments Throws {A} e.

(** Truncation of a real toward zero. *)
Definition Rtrunc (a : R) : Z :=
  if Rle_dec 0 a then Int_part a else (- Int_part (- a))%Z.

(** [x % y]: the remainder has the sign of the dividend. *)
Definition rem (x y : num) : num :=
  match x, y with
  | NaN, _ | _, NaN => NaN
  | PInf, _ | NInf, _ => NaN
  | Fin a, PInf | Fin a, NInf => Fin a
  | Fin a, Fin b =>
      if Req_dec_T b 0 then NaN else Fin (a - b * IZR (Rtrunc (a / b)))
  end.

(** [Math.round]: the nearest integer, halves rounded up. *)
Definition round (x : num) : num :=
  match x with
  | Fin a => Fin (IZR (Int_part (a + 0.5)))
  | PInf => PInf
  | NInf => NInf
  | NaN => NaN
  end.

(** [Math.pow(2, e)]. *)
Definition pow2 (e : num) : num :=
  match e with
  | Fin a => Fin (Rpower 2 a)
  | PInf => PInf
  | NInf => Fin 0
  | NaN => NaN
  end.


End Js.

Import Js.

Declare Scope js_scope.
Delimit Scope js_scope with js.
Bind Scope js_scope with num.

Infix "+" := add : js_scope.
Infix "-" := sub : js_scope.
Infix "*" := mul : js_scope.
Infix "/" := div : js_scope.
Infix "<?" := ltb (at level 70, no associativity) : js_scope.
Infix "<=?" := leb (at level 70, no associativity) : js_scope.
Infix ">=?" := geb (at level 70, no associativity) : js_scope.
Infix "===" := eqb (at level 70, no associativity) : js_scope.
Infix "%%" := rem (at level 40, left associativity) : js_scope.

(** ** Section 2 of the script: model constants *)

Module MOE_CONFIG.

(** Hidden layer size. *)
Definition HIDDEN_DIMENSION : num := Fin 6144.

(** FP16/BF16: 2 bytes. *)
Definition BYTES_PER_ELEMENT : num := Fin 2.

(** Number of experts selected per token. *)
Definition TOP_K_EXPERTS : num := Fin 2.

End MOE_CONFIG.

(** ** Section 3 of the script: performance model *)

(** The two local constants of [calculateStragglerFactor]. *)
Definition structuralImbalance (skew : num) : num :=
  (Fin 1 + Fin 2.2 * skew)%js.

Definition coordinationPenalty (epRanks : num) : num :=
  (Fin 1 + Fin 0.12 * log2 epRanks)%js.

Definition calculateStragglerFactor (epRanks skew : num) : num :=
  (structuralImbalance skew * coordinationPenalty epRanks)%js.

Definition calculateBytesPerToken : num :=
  (MOE_CONFIG.TOP_K_EXPERTS * MOE_CONFIG.HIDDEN_DIMENSION
   * MOE_CONFIG.BYTES_PER_ELEMENT)%js.

Definition calculateDispatchTimeMs
    (tokenCount epRanks latencyMicroseconds bandwidthGBps : num) : num :=
  let latencyMs := (latencyMicroseconds / Fin 1000)%js in
  let bandwidthBytesPerSec := (bandwidthGBps * Fin 1e9)%js in
  let totalBytes := ((tokenCount * calculateBytesPerToken) / epRanks)%js in
  let transferTimeMs := ((totalBytes / bandwidthBytesPerSec) * Fin 1000)%js in
  (latencyMs + transferTimeMs)%js.

Definition calculateComputeTimeMs
    (tokenCount epRanks computeUsPerToken skew : num) : num :=
  let routedTokens := (tokenCount * MOE_CONFIG.TOP_K_EXPERTS)%js in
  let meanTokensPerExpert := (routedTokens / epRanks)%js in
  let randomVariationFactor :=
    (Fin 1 + Fin 3.2 / sqrt (max (Fin 1) tokenCount))%js in
  let stragglerFactor := calculateStragglerFactor epRanks skew in
  let maxExpertLoad :=
    (meanTokensPerExpert * randomVariationFactor * stragglerFactor)%js in
  ((maxExpertLoad * computeUsPerToken) / Fin 1000)%js.

Record Timings : Type := mkTimings {
  dispatchMs : num;
  computeMs : num;
  combineMs : num;
  sequentialTotalMs : num;
  dboOverlappedMs : num
}.

Definition calculateMoETimings
    (tokenCount epRanks latencyUs bandwidthGBps computeUsPerToken skew : num)
    : Timings :=
  let dispatchMs :=
    calculateDispatchTimeMs tokenCount epRanks latencyUs bandwidthGBps in
  let computeMs :=
    calculateComputeTimeMs tokenCount epRanks computeUsPerToken skew in
  let combineMs := dispatchMs in
  let sequentialTotalMs := (dispatchMs + computeMs + combineMs)%js in
  let dboOverlappedMs := max (dispatchMs + combineMs)%js computeMs in
  {| dispatchMs := dispatchMs;
     computeMs := computeMs;
     combineMs := combineMs;
     sequentialTotalMs := sequentialTotalMs;
     dboOverlappedMs := dboOverlappedMs |}.

(** ** Crossover scan of [DeepEPRenderer._drawCurveLines] *)

(** An element of [data.points], as [_generateCurveData] pushes it. *)
Record CurvePoint : Type := mkCurvePoint {
  tokens : num;
  llTime : num;
  htTime : num
}.

(** The value of the local [crossoverTokens] when the scan loop is left:
    [None] is [null].  The loop visits the adjacent pairs
    [points[i], points[i+1]] from the left and breaks at the first pair
    with [diff1 < 0 && diff2 >= 0]. *)
Fixpoint crossoverTokens (points : list CurvePoint) : option num :=
  match points with
  | [] => None
  | p1 :: rest =>
      match rest with
      | [] => None
      | p2 :: _ =>
          let diff1 := (llTime p1 - htTime p1)%js in
          let diff2 := (llTime p2 - htTime p2)%js in
          if (diff1 <? Fin 0)%js && (diff2 >=? Fin 0)%js then
            let t := (abs diff1 / (abs diff1 + abs diff2))%js in
            let logT1 := log (tokens p1) in
            let logT2 := log (tokens p2) in
            let logTx := (logT1 + t * (logT2 - logT1))%js in
            Some (exp logTx)
          else crossoverTokens rest
      end
  end.

(** ** [TimelineRenderer]: the schedule of the timeline *)

Inductive Phase : Type :=
| dispatch
| compute
| combine.

Record Block : Type := mkBlock {
  phase : Phase;
  start : num;
  duration : num
}.

Record Schedule : Type := mkSchedule {
  batchA : list Block;
  batchB : list Block
}.

(** The fields of [options] that the two functions below read. *)
Record Options : Type := mkOptions {
  enableDBO : bool;
  enableSplit : bool
}.

Definition _buildSchedule (timings : Timings) (options : Options) : Schedule :=
  let d := if enableSplit options
           then (dispatchMs timings / Fin 2)%js else dispatchMs timings in
  let c := if enableSplit options
           then (computeMs timings / Fin 2)%js else computeMs timings in
  let b := if enableSplit options
           then (combineMs timings / Fin 2)%js else combineMs timings in
  if negb (enableDBO options) then
    (* Sequential execution *)
    let t0 := Fin 0 in
    let t1 := (t0 + d)%js in
    let t2 := (t1 + c)%js in
    {| batchA := [ mkBlock dispatch t0 d; mkBlock compute t1 c;
                   mkBlock combine t2 b ];
       batchB := [] |}
  else
    (* DBO pipelined execution *)
    let dispatchA := Fin 0 in
    let dispatchB := (dispatchA + d)%js in
    let computeA := (dispatchA + d)%js in
    let computeB := max (dispatchB + d)%js (computeA + c)%js in
    let combineA := max (computeA + c)%js (dispatchB + d)%js in
    let combineB := max (computeB + c)%js (combineA + b)%js in
    {| batchA := [ mkBlock dispatch dispatchA d; mkBlock compute computeA c;
                   mkBlock combine combineA b ];
       batchB := [ mkBlock dispatch dispatchB d; mkBlock compute computeB c;
                   mkBlock combine combineB b ] |}.

(** [blocks[blocks.length - 1]]: [None] is [undefined]. *)
Definition lastElement (blocks : list Block) : option Block :=
  nth_error blocks (length blocks - 1).

(** [block.start + block.duration], the instant at which a block ends. *)
Definition blockEnd (block : Block) : num :=
  (start block + duration block)%js.

(** Reading [.start] of [undefined] throws a [TypeError]. *)
Definition _calculateTotalDuration (schedule : Schedule) (enableDBO : bool)
    : completion num :=
  if negb enableDBO then
    match lastElement (batchA schedule) with
    | Some lastBlock => Returns (blockEnd lastBlock)
    | None => Throws TypeError
    end
  else
    match lastElement (batchA schedule), lastElement (batchB schedule) with
    | Some lastA, Some lastB => Returns (max (blockEnd lastA) (blockEnd lastB))
    | _, _ => Throws TypeError
    end.

(** ** Section 15 of the script: the third self-test *)

(** [(t.dispatchMs + t.combineMs) / t.sequentialTotalMs], the expression of
    [commShareSmall] and [commShareLarge]. *)
Definition commShare (t : Timings) : num :=
  ((dispatchMs t + combineMs t) / sequentialTotalMs t)%js.

(** The condition under which test 3 reports a pass. *)
Definition selfTest3 : bool :=
  let small := calculateMoETimings (Fin 256) (Fin 16) (Fin 25) (Fin 25)
                 (Fin 0.45) (Fin 0.1) in
  let large := calculateMoETimings (Fin 1048576) (Fin 16) (Fin 25) (Fin 25)
                 (Fin 0.45) (Fin 0.1) in
  let commShareSmall := commShare small in
  let commShareLarge := commShare large in
  (commShareLarge <=? commShareSmall + Fin 0.01)%js.

(** ** Closed forms and predicates used in the statements *)

(** The dispatch time as a real expression of finite arguments. *)
Definition dispatchFormula (T P L bw : R) : R :=
  L / 1000 + T * (2 * 6144 * 2) / P / (bw * 1e9) * 1000.

(** The compute time as a real expression of finite arguments. *)
Definition computeFormula (T P cu s : R) : R :=
  (T * 2 / P) * (1 + 3.2 / R_sqrt.sqrt (Rmax 1 T)) * (1 + 2.2 * s)
  * (1 + 0.12 * Rlog2 P) * cu / 1000.

(** The documented domain of the six model parameters. *)
Record validParameters (T P L bw cu s : R) : Prop := mkValid {
  valid_tokenCount : 0 <= T;
  valid_epRanks : 1 <= P;
  valid_latencyUs : 0 <= L;
  valid_bandwidthGBps : 0 < bw;
  valid_computeUsPerToken : 0 <= cu;
  valid_skew : 0 <= s <= 1
}.

(** Every field of a [Timings] record is a finite number. *)
Definition finiteTimings (t : Timings) : bool :=
  isFinite (dispatchMs t) && isFinite (computeMs t) && isFinite (combineMs t)
  && isFinite (sequentialTotalMs t) && isFinite (dboOverlappedMs t).

(** A block occupies its resource at the instant [x]:
    [start <= x < start + duration]. *)
Definition active (block : Block) (x : R) : Prop :=
  (start block <=? Fin x)%js = true /\ (Fin x <? blockEnd block)%js = true.

(** Two blocks are in progress at a common instant. *)
Definition overlap (b1 b2 : Block) : Prop :=
  exists x : R, active b1 x /\ active b2 x.

(** [b1] has ended when [b2] starts. *)
Definition precedes (b1 b2 : Block) : Prop :=
  (blockEnd b1 <=? start b2)%js = true.

(** Dispatch and combine transfers use the fabric, expert compute uses the
    compute engine. *)
Definition onFabric (block : Block) : bool :=
  match phase block with
  | dispatch | combine => true
  | compute => false
  end.

(** The blocks of a schedule that use the fabric, and those that use the
    compute engine. *)
Definition fabricBlocks (schedule : Schedule) : list Block :=
  filter onFabric (batchA schedule ++ batchB schedule).

Definition computeBlocks (schedule : Schedule) : list Block :=
  filter (fun block => negb (onFabric block))
    (batchA schedule ++ batchB schedule).

(** ** Section 4 of the script: the DeepEP model *)

Module DeepEPModel.

Local Open Scope string_scope.

(** The object that [getParameters] returns. *)
Record Parameters : Type := mkParameters {
  name : String.string;
  latencyMs : num;
  bandwidthGBps : num;
  description : String.string
}.

(** Every mode other than ['ll'] is answered with the high-throughput
    parameters. *)
Definition getParameters (mode : String.string) (baseLatencyUs baseBandwidthGBps : num)
    : Parameters :=
  let baseLatencyMs := (baseLatencyUs / Fin 1000)%js in
  if String.eqb mode "ll" then
    {| name := "Low‑latency";
       latencyMs := (Fin 0.55 * baseLatencyMs)%js;
       bandwidthGBps := (Fin 0.70 * baseBandwidthGBps)%js;
       description := "smaller fixed cost; less BW‑optimized" |}
  else
    {| name := "High‑throughput";
       latencyMs := (Fin 1.15 * baseLatencyMs)%js;
       bandwidthGBps := (Fin 1.35 * baseBandwidthGBps)%js;
       description := "more setup; higher BW_eff via hierarchy" |}.

Definition calculateCommTimeMs
    (tokenCount epRanks : num) (mode : String.string)
    (baseLatencyUs baseBandwidthGBps : num) : num :=
  let totalBytes := ((tokenCount * calculateBytesPerToken) / epRanks)%js in
  let params := getParameters mode baseLatencyUs baseBandwidthGBps in
  let bandwidthBytesPerSec := (bandwidthGBps params * Fin 1e9)%js in
  let transferTimeMs := ((totalBytes / bandwidthBytesPerSec) * Fin 1000)%js in
  (Fin 2 * (latencyMs params + transferTimeMs))%js.


End DeepEPModel.

(** ** Section 6 of the script: the animation clock *)

Module AnimationController.

(** The fields of the controller; [requestId] is [None] for [null]. *)
Record State : Type := mkState {
  lastFrameTime : num;
  elapsedSeconds : num;
  requestId : option nat;
  equationsDirty : bool
}.

(** [reset()]; [now] is the value of [performance.now()]. *)
Definition reset (st : State) (now : num) : State :=
  {| lastFrameTime := now;
     elapsedSeconds := Fin 0;
     requestId := requestId st;
     equationsDirty := true |}.



End AnimationController.

(** ** Section 8 of the script: reading the controls *)

(** The object that [getModelParameters] returns. *)
Record ModelParameters : Type := mkModelParameters {
  tokenCount : num;
  epRanks : num;
  latencyUs : num;
  bandwidthGBps : num;
  computeUsPerToken : num;
  skew : num
}.

(** The sliders as the two functions below see them: [None] when the
    element is missing from [DOMElements], otherwise the number that
    [parseInt(value, 10)] (tokens and EP sliders) or [parseFloat(value)]
    (the other four) gives, [NaN] when the text does not parse. *)
Record Sliders : Type := mkSliders {
  tokensSlider : option num;
  epSlider : option num;
  latencySlider : option num;
  bandwidthSlider : option num;
  computeSlider : option num;
  skewSlider : option num
}.

Module ControlState.

Definition getTokenCount (el : Sliders) : num :=
  match tokensSlider el with
  | None => Fin 256
  | Some exponent => round (pow2 exponent * Fin 8)%js
  end.


End ControlState.

(** ** Section 10 of the script: [SVGUtils.pruneTicks] *)

(** [values.filter((_, i) => keep(i))], the indices counted from [i]. *)
Fixpoint filterIndex {A : Type} (keep : nat -> bool) (i : nat)
    (values : list A) : list A :=
  match values with
  | [] => []
  | v :: rest =>
      if keep i then v :: filterIndex keep (S i) rest
      else filterIndex keep (S i) rest
  end.

(** [Math.ceil(n / m)] for a positive integer [m]. *)
Definition ceilDiv (n m : nat) : nat := (n + m - 1) / m.

(** [maxTicks] is a nonnegative integer, as at the two call sites
    ([Math.max(4, Math.floor(...))]).  For [maxTicks = 0] and a nonempty
    array the step is [Math.ceil(n / 0) = Infinity] and [i % Infinity === 0]
    holds for [i = 0] alone. *)
Definition pruneTicks {A : Type} (values : list A) (maxTicks : nat) : list A :=
  if (length values <=? maxTicks)%nat then values
  else
    match maxTicks with
    | O => filterIndex (fun i => (i =? 0)%nat) 0 values
    | S _ =>
        let step := ceilDiv (length values) maxTicks in
        filterIndex (fun i => (i mod step =? 0)%nat) 0 values
    end.

(** ** Section 14 of the script: the DeepEP metrics *)

(** The totals and throughputs that [DeepEPRenderer._updateMetrics]
    computes before it writes them to the page. *)
Record Metrics : Type := mkMetrics {
  llTotalDBO : num;
  htTotalDBO : num;
  llTotalNoDBO : num;
  htTotalNoDBO : num;
  llTpsDBO : num;
  htTpsDBO : num;
  llTpsNoDBO : num;
  htTpsNoDBO : num
}.

Definition _updateMetrics (params : ModelParameters) (llComm htComm : num)
    : Metrics :=
  let computeMs :=
    calculateComputeTimeMs (tokenCount params) (epRanks params)
      (computeUsPerToken params) (skew params) in
  let llTotalDBO := max llComm computeMs in
  let htTotalDBO := max htComm computeMs in
  let llTotalNoDBO := (llComm + computeMs)%js in
  let htTotalNoDBO := (htComm + computeMs)%js in
  {| llTotalDBO := llTotalDBO;
     htTotalDBO := htTotalDBO;
     llTotalNoDBO := llTotalNoDBO;
     htTotalNoDBO := htTotalNoDBO;
     llTpsDBO := (tokenCount params / (llTotalDBO / Fin 1000))%js;
     htTpsDBO := (tokenCount params / (htTotalDBO / Fin 1000))%js;
     llTpsNoDBO := (tokenCount params / (llTotalNoDBO / Fin 1000))%js;
     htTpsNoDBO := (tokenCount params / (htTotalNoDBO / Fin 1000))%js |}.

(** The metrics as [DeepEPRenderer._updateCurveKPI] asks for them. *)
Definition _updateCurveKPI (params : ModelParameters) : Metrics :=
  let llTime :=
    DeepEPModel.calculateCommTimeMs (tokenCount params) (epRanks params)
      "ll"%string (latencyUs params) (bandwidthGBps params) in
  let htTime :=
    DeepEPModel.calculateCommTimeMs (tokenCount params) (epRanks params)
      "ht"%string (latencyUs params) (bandwidthGBps params) in
  _updateMetrics params llTime htTime.

(** The object that [DeepEPRenderer._generateCurveData] returns. *)
Record CurveData : Type := mkCurveData {
  points : list CurvePoint;
  maxY : num
}.

(** The body of the loop of [_generateCurveData] for the index [i]: the
    sample is pushed and [maxY] raised. *)
Definition curveDataStep (params : ModelParameters) (acc : CurveData)
    (i : nat) : CurveData :=
  let MIN_EXP := Fin (-3) in
  let MAX_EXP := Fin 19 in
  let SAMPLES := Fin 150 in
  let exp := (MIN_EXP + (MAX_EXP - MIN_EXP)
                        * (Fin (INR i) / (SAMPLES - Fin 1)))%js in
  let tokens := max (Fin 1) (round (pow2 exp * Fin 8)%js) in
  let llTime :=
    max (Fin 0.001)
      (DeepEPModel.calculateCommTimeMs tokens (epRanks params) "ll"%string
         (latencyUs params) (bandwidthGBps params)) in
  let htTime :=
    max (Fin 0.001)
      (DeepEPModel.calculateCommTimeMs tokens (epRanks params) "ht"%string
         (latencyUs params) (bandwidthGBps params)) in
  {| points := points acc ++ [mkCurvePoint tokens llTime htTime];
     maxY := max (max (maxY acc) llTime) htTime |}.

Definition _generateCurveData (params : ModelParameters) : CurveData :=
  fold_left (curveDataStep params) (seq 0 150)
    {| points := []; maxY := Fin 0 |}.

(** A sample with a finite token count of at least 1 and finite times
    between 0.001 and [M]. *)
Definition boundedSample (M : R) (p : CurvePoint) : Prop :=
  exists t l h : R,
    p = mkCurvePoint (Fin t) (Fin l) (Fin h)
    /\ 1 <= t /\ 0.001 <= l <= M /\ 0.001 <= h <= M.

(** ** Section 16 of the script: the playhead of [animationTick] *)

(** The local [cycleDuration] of [animationTick]. *)
Definition cycleDuration (timings : Timings) (enableSplit enableDBO : bool)
    : num :=
  let d := if enableSplit
           then (dispatchMs timings / Fin 2)%js else dispatchMs timings in
  let c := if enableSplit
           then (computeMs timings / Fin 2)%js else computeMs timings in
  let b := if enableSplit
           then (combineMs timings / Fin 2)%js else combineMs timings in
  if negb enableDBO then ((d + c + b) * Fin 2)%js
  else ((d + c + b) + Fin 2 * max (d + b)%js c + (d + b))%js.

(** The local [currentTimeMs] of [animationTick]. *)
Definition currentTimeMs (elapsed : num) (timings : Timings)
    (enableSplit enableDBO : bool) : num :=
  ((elapsed * Fin 1000) %% cycleDuration timings enableSplit enableDBO)%js.

(** A sample point with finite times and a positive finite token count. *)
Definition finiteSample (p : CurvePoint) : Prop :=
  exists t l h : R, p = mkCurvePoint (Fin t) (Fin l) (Fin h) /\ 0 < t.

(** [l1] is [l2] with some elements left out, the order kept. *)
Inductive subsequence {A : Type} : list A -> list A -> Prop :=
| subsequence_nil : subsequence [] []
| subsequence_keep (v : A) (l1 l2 : list A) :
    subsequence l1 l2 -> subsequence (v :: l1) (v :: l2)
| subsequence_drop (v : A) (l1 l2 : list A) :
    subsequence l1 l2 -> subsequence l1 (v :: l2).


(** A duration as the schedule uses it: halved when [enableSplit] is set. *)
Definition halved (split : bool) (x : R) : R := if split then x / 2 else x.

(** * Properties *)

(** ** Arithmetic on finite values *)

Lemma div_Fin (a b : R) : b <> 0 -> (Fin a / Fin b)%js = Fin (a / b).
Proof.
  intros Hb. unfold div.
  destruct (Req_dec_T b 0) as [E | _]; [contradiction | reflexivity].
Qed.

Lemma sqrt_Fin (a : R) : 0 <= a -> sqrt (Fin a) = Fin (R_sqrt.sqrt a).
Proof.
  intros Ha. unfold sqrt.
  destruct (Rlt_dec a 0) as [E | _]; [lra | reflexivity].
Qed.

Lemma log2_Fin (a : R) : 0 < a -> log2 (Fin a) = Fin (Rlog2 a).
Proof.
  intros Ha. unfold log2.
  destruct (Rlt_dec a 0) as [E | _]; [lra | ].
  destruct (Req_dec_T a 0) as [E | _]; [lra | reflexivity].
Qed.

Lemma leb_Fin (a b : R) : (Fin a <=? Fin b)%js = true <-> a <= b.
Proof.
  unfold leb. destruct (Rle_dec a b); split; intros; auto; discriminate.
Qed.

Lemma leb_Fin_false (a b : R) : (Fin a <=? Fin b)%js = false <-> b < a.
Proof.
  unfold leb. destruct (Rle_dec a b); split; intros; auto;
    try discriminate; lra.
Qed.

Lemma ltb_Fin (a b : R) : (Fin a <? Fin b)%js = true <-> a < b.
Proof.
  unfold ltb. destruct (Rlt_dec a b); split; intros; auto; discriminate.
Qed.

Lemma eqb_Fin (a : R) : (Fin a === Fin a)%js = true.
Proof.
  unfold eqb. destruct (Req_dec_T a a); [reflexivity | contradiction].
Qed.

Lemma Rdiv_nonneg (a b : R) : 0 <= a -> 0 < b -> 0 <= a / b.
Proof.
  intros Ha Hb. unfold Rdiv. apply Rmult_le_pos; [assumption | ].
  left. apply Rinv_0_lt_compat. assumption.
Qed.

Lemma Rlog2_1 : Rlog2 1 = 0.
Proof. unfold Rlog2. rewrite ln_1. unfold Rdiv. apply Rmult_0_l. Qed.

Lemma ln_2_pos : 0 < ln 2.
Proof. rewrite <- ln_1. apply ln_increasing; lra. Qed.

Lemma Rlog2_nonneg (a : R) : 1 <= a -> 0 <= Rlog2 a.
Proof.
  intros Ha. unfold Rlog2.
  apply Rmult_le_pos.
  - rewrite <- ln_1. destruct Ha as [Ha | <-]; [ | lra].
    left. apply ln_increasing; lra.
  - left. apply Rinv_0_lt_compat, ln_2_pos.
Qed.

Lemma Rlog2_16 : Rlog2 16 = 4.
Proof.
  unfold Rlog2.
  replace 16 with (2 * 2 * (2 * 2)) by lra.
  rewrite !ln_mult by lra.
  pose proof ln_2_pos. field. lra.
Qed.

Lemma sqrt_Rmax_pos (T : R) : 0 < R_sqrt.sqrt (Rmax 1 T).
Proof.
  apply sqrt_lt_R0. pose proof (Rmax_l 1 T). lra.
Qed.

(** ** The phase times on finite arguments *)

Lemma calculateDispatchTimeMs_Fin (T P L bw : R) :
  P <> 0 -> bw <> 0 ->
  calculateDispatchTimeMs (Fin T) (Fin P) (Fin L) (Fin bw)
  = Fin (dispatchFormula T P L bw).
Proof.
  intros HP Hbw.
  unfold calculateDispatchTimeMs, calculateBytesPerToken, dispatchFormula.
  cbn [MOE_CONFIG.TOP_K_EXPERTS MOE_CONFIG.HIDDEN_DIMENSION
       MOE_CONFIG.BYTES_PER_ELEMENT mul add].
  rewrite (div_Fin L 1000) by lra.
  rewrite (div_Fin _ P) by assumption.
  rewrite div_Fin by lra.
  reflexivity.
Qed.

Lemma calculateComputeTimeMs_Fin (T P cu s : R) :
  0 < P ->
  calculateComputeTimeMs (Fin T) (Fin P) (Fin cu) (Fin s)
  = Fin (computeFormula T P cu s).
Proof.
  intros HP.
  unfold calculateComputeTimeMs, calculateStragglerFactor,
    structuralImbalance, coordinationPenalty, computeFormula.
  cbn [MOE_CONFIG.TOP_K_EXPERTS mul add max].
  pose proof (sqrt_Rmax_pos T) as Hs.
  pose proof (Rmax_l 1 T) as Hm.
  rewrite sqrt_Fin by lra.
  rewrite log2_Fin by assumption.
  rewrite (div_Fin _ P) by lra.
  rewrite (div_Fin 3.2) by lra.
  cbn [mul add].
  rewrite div_Fin by lra.
  f_equal. field. lra.
Qed.

Lemma calculateMoETimings_Fin (T P L bw cu s : R) :
  0 < P -> bw <> 0 ->
  calculateMoETimings (Fin T) (Fin P) (Fin L) (Fin bw) (Fin cu) (Fin s)
  = let d := dispatchFormula T P L bw in
    let c := computeFormula T P cu s in
    {| dispatchMs := Fin d;
       computeMs := Fin c;
       combineMs := Fin d;
       sequentialTotalMs := Fin (d + c + d);
       dboOverlappedMs := Fin (Rmax (d + d) c) |}.
Proof.
  intros HP Hbw. unfold calculateMoETimings.
  rewrite calculateDispatchTimeMs_Fin by lra.
  rewrite calculateComputeTimeMs_Fin by assumption.
  reflexivity.
Qed.

Lemma dispatchFormula_nonneg (T P L bw : R) :
  0 <= T -> 0 < P -> 0 <= L -> 0 < bw -> 0 <= dispatchFormula T P L bw.
Proof.
  intros HT HP HL Hbw. unfold dispatchFormula.
  assert (0 <= T * (2 * 6144 * 2) / P / (bw * 1e9)) as H.
  { apply Rdiv_nonneg; [ | lra].
    apply Rdiv_nonneg; lra. }
  lra.
Qed.

Lemma dispatchFormula_pos (T P L bw : R) :
  0 < T -> 0 < P -> 0 <= L -> 0 < bw -> 0 < dispatchFormula T P L bw.
Proof.
  intros HT HP HL Hbw. unfold dispatchFormula.
  assert (0 < T * (2 * 6144 * 2) / P / (bw * 1e9)) as H.
  { apply Rdiv_lt_0_compat; [ | lra].
    apply Rdiv_lt_0_compat; lra. }
  lra.
Qed.

Lemma randomVariation_pos (T : R) : 0 < 1 + 3.2 / R_sqrt.sqrt (Rmax 1 T).
Proof.
  pose proof (sqrt_Rmax_pos T) as Hs.
  assert (0 < 3.2 / R_sqrt.sqrt (Rmax 1 T))
    by (apply Rdiv_lt_0_compat; lra).
  lra.
Qed.

Lemma computeFormula_nonneg (T P cu s : R) :
  0 <= T -> 1 <= P -> 0 <= cu -> 0 <= s -> 0 <= computeFormula T P cu s.
Proof.
  intros HT HP Hcu Hs. unfold computeFormula.
  pose proof (randomVariation_pos T) as Hv.
  pose proof (Rlog2_nonneg P HP) as Hl.
  assert (0 <= T * 2 / P) by (apply Rdiv_nonneg; lra).
  apply Rdiv_nonneg; [ | lra].
  do 4 (apply Rmult_le_pos; [ | lra]). assumption.
Qed.

Lemma computeFormula_0 (P cu s : R) : computeFormula 0 P cu s = 0.
Proof.
  unfold computeFormula, Rdiv. rewrite !Rmult_0_l. reflexivity.
Qed.

Lemma dispatchFormula_0 (P L bw : R) :
  dispatchFormula 0 P L bw = L / 1000.
Proof.
  unfold dispatchFormula, Rdiv. rewrite !Rmult_0_l. lra.
Qed.

(** ** The cost model *)

(** C1, claim as stated, refuted: with a negative (finite) latency the
    dispatch time is negative and the overlapped total exceeds the
    sequential total.  At [calculateMoETimings(0, 1, -1000, 1, 0, 0)] the
    record is [dispatchMs = combineMs = -1], [computeMs = 0],
    [sequentialTotalMs = -2], [dboOverlappedMs = 0]. *)
Lemma dbo_exceeds_sequential_negative_latency :
  let t := calculateMoETimings (Fin 0) (Fin 1) (Fin (-1000)) (Fin 1)
             (Fin 0) (Fin 0) in
  sequentialTotalMs t = Fin (-2)
  /\ dboOverlappedMs t = Fin 0
  /\ (dboOverlappedMs t <=? sequentialTotalMs t)%js = false.
Proof.
  rewrite calculateMoETimings_Fin by lra.
  cbn zeta. cbn [sequentialTotalMs dboOverlappedMs].
  rewrite computeFormula_0, dispatchFormula_0.
  replace (-1000 / 1000 + 0 + -1000 / 1000) with (-2) by lra.
  replace (-1000 / 1000 + -1000 / 1000) with (-2) by lra.
  assert (Rmax (-2) 0 = 0) as -> by (apply Rmax_right; lra).
  repeat split. apply leb_Fin_false. lra.
Qed.

(** C1, amended: for finite inputs with [tokenCount >= 0], [P >= 1],
    [latencyUs >= 0], [bandwidthGBps > 0], [computeUsPerToken >= 0] and
    [skew >= 0], the returned record has
    [sequentialTotalMs = dispatchMs + computeMs + combineMs],
    [dboOverlappedMs = max(dispatchMs + combineMs, computeMs)] and
    [dboOverlappedMs <= sequentialTotalMs]. *)
Theorem dbo_le_sequential (T P L bw cu s : R) :
  0 <= T -> 1 <= P -> 0 <= L -> 0 < bw -> 0 <= cu -> 0 <= s ->
  let t := calculateMoETimings (Fin T) (Fin P) (Fin L) (Fin bw)
             (Fin cu) (Fin s) in
  sequentialTotalMs t = (dispatchMs t + computeMs t + combineMs t)%js
  /\ dboOverlappedMs t = max (dispatchMs t + combineMs t)%js (computeMs t)
  /\ (dboOverlappedMs t <=? sequentialTotalMs t)%js = true.
Proof.
  intros HT HP HL Hbw Hcu Hs t.
  split; [reflexivity | split; [reflexivity | ]].
  subst t. rewrite calculateMoETimings_Fin by lra.
  cbn zeta. cbn [sequentialTotalMs dboOverlappedMs].
  pose proof (dispatchFormula_nonneg T P L bw) as Hd.
  pose proof (computeFormula_nonneg T P cu s) as Hc.
  apply leb_Fin. apply Rmax_lub; lra.
Qed.

Lemma dbo_le_sequential_witness :
  let t := calculateMoETimings (Fin 8192) (Fin 32) (Fin 25) (Fin 50)
             (Fin 0.6) (Fin 0.05) in
  sequentialTotalMs t = (dispatchMs t + computeMs t + combineMs t)%js
  /\ dboOverlappedMs t = max (dispatchMs t + combineMs t)%js (computeMs t)
  /\ (dboOverlappedMs t <=? sequentialTotalMs t)%js = true.
Proof.
  apply (dbo_le_sequential 8192 32 25 50 0.6 0.05); lra.
Defined.

(** C3: for [tokenCount >= 0], [P >= 1], [computeUsPerToken >= 0] and
    [skew] in [[0,1]] the compute time is
    [(tokenCount * topK / P) * (1 + 3.2/sqrt(max(1, tokenCount)))
     * (1 + 2.2*skew) * (1 + 0.12*log2(P)) * computeUsPerToken / 1000]
    with [topK = 2], a finite number; and the coordination penalty at
    [P = 1] is exactly [1]. *)
Theorem calculateComputeTimeMs_formula (T P cu s : R) :
  0 <= T -> 1 <= P -> 0 <= cu -> 0 <= s <= 1 ->
  calculateComputeTimeMs (Fin T) (Fin P) (Fin cu) (Fin s)
  = Fin ((T * 2 / P) * (1 + 3.2 / R_sqrt.sqrt (Rmax 1 T))
         * (1 + 2.2 * s) * (1 + 0.12 * Rlog2 P) * cu / 1000)
  /\ coordinationPenalty (Fin 1) = Fin 1.
Proof.
  intros HT HP Hcu Hs. split.
  - rewrite calculateComputeTimeMs_Fin by lra. reflexivity.
  - unfold coordinationPenalty. rewrite log2_Fin by lra.
    rewrite Rlog2_1. cbn [mul add]. f_equal. lra.
Qed.

Lemma calculateComputeTimeMs_formula_witness :
  calculateComputeTimeMs (Fin 1024) (Fin 16) (Fin 0.45) (Fin 0.1)
  = Fin ((1024 * 2 / 16) * (1 + 3.2 / R_sqrt.sqrt (Rmax 1 1024))
         * (1 + 2.2 * 0.1) * (1 + 0.12 * Rlog2 16) * 0.45 / 1000)
  /\ coordinationPenalty (Fin 1) = Fin 1.
Proof.
  apply (calculateComputeTimeMs_formula 1024 16 0.45 0.1); lra.
Defined.

(** C4: for every valid parameter set the returned record has
    [combineMs == dispatchMs]: the two fields hold the same finite number,
    so the comparison [combineMs === dispatchMs] is true. *)
Theorem combineMs_eq_dispatchMs (T P L bw cu s : R) :
  validParameters T P L bw cu s ->
  let t := calculateMoETimings (Fin T) (Fin P) (Fin L) (Fin bw)
             (Fin cu) (Fin s) in
  combineMs t = dispatchMs t
  /\ (combineMs t === dispatchMs t)%js = true.
Proof.
  intros [HT HP HL Hbw Hcu Hs] t. split; [reflexivity | ].
  subst t. rewrite calculateMoETimings_Fin by lra.
  apply eqb_Fin.
Qed.

Lemma validParameters_default :
  validParameters 1024 16 25 25 0.45 0.1.
Proof. constructor; lra. Defined.

Lemma combineMs_eq_dispatchMs_witness :
  let t := calculateMoETimings (Fin 1024) (Fin 16) (Fin 25) (Fin 25)
             (Fin 0.45) (Fin 0.1) in
  combineMs t = dispatchMs t
  /\ (combineMs t === dispatchMs t)%js = true.
Proof.
  apply (combineMs_eq_dispatchMs 1024 16 25 25 0.45 0.1).
  exact validParameters_default.
Defined.

Lemma eqb_Fin_false (a b : R) : a <> b -> (Fin a === Fin b)%js = false.
Proof.
  intros H. unfold eqb.
  destruct (Req_dec_T a b); [contradiction | reflexivity].
Qed.

(** C7, claim as stated, refuted: a batch of zero tokens still pays the
    fixed latency on both transfer legs.  At
    [calculateMoETimings(0, 16, 25, 25, 0.45, 0.1)] the dispatch time is
    [25/1000] ms, not [0]. *)
Lemma zero_tokens_nonzero_dispatch :
  let t := calculateMoETimings (Fin 0) (Fin 16) (Fin 25) (Fin 25)
             (Fin 0.45) (Fin 0.1) in
  dispatchMs t = Fin (25 / 1000)
  /\ (dispatchMs t === Fin 0)%js = false.
Proof.
  rewrite calculateMoETimings_Fin by lra.
  cbn zeta. cbn [dispatchMs].
  rewrite dispatchFormula_0.
  split; [reflexivity | apply eqb_Fin_false; lra].
Qed.

(** C7, amended: for every otherwise-valid parameter set with
    [tokenCount = 0], [computeMs = 0] and
    [dispatchMs = combineMs = latencyUs / 1000], so that
    [sequentialTotalMs = dboOverlappedMs = 2 * latencyUs / 1000]. *)
Theorem zero_tokens_timings (P L bw cu s : R) :
  validParameters 0 P L bw cu s ->
  let t := calculateMoETimings (Fin 0) (Fin P) (Fin L) (Fin bw)
             (Fin cu) (Fin s) in
  dispatchMs t = Fin (L / 1000)
  /\ computeMs t = Fin 0
  /\ combineMs t = Fin (L / 1000)
  /\ sequentialTotalMs t = Fin (2 * L / 1000)
  /\ dboOverlappedMs t = Fin (2 * L / 1000).
Proof.
  intros [_ HP HL Hbw Hcu Hs] t. subst t.
  rewrite calculateMoETimings_Fin by lra.
  cbn zeta. cbn [dispatchMs computeMs combineMs sequentialTotalMs
                 dboOverlappedMs].
  rewrite computeFormula_0, dispatchFormula_0.
  repeat split; f_equal; try lra.
  rewrite Rmax_left by lra. lra.
Qed.

Lemma zero_tokens_timings_witness :
  let t := calculateMoETimings (Fin 0) (Fin 16) (Fin 25) (Fin 25)
             (Fin 0.45) (Fin 0.1) in
  dispatchMs t = Fin (25 / 1000)
  /\ computeMs t = Fin 0
  /\ combineMs t = Fin (25 / 1000)
  /\ sequentialTotalMs t = Fin (2 * 25 / 1000)
  /\ dboOverlappedMs t = Fin (2 * 25 / 1000).
Proof.
  apply (zero_tokens_timings 16 25 25 0.45 0.1).
  constructor; lra.
Defined.

(** *** Zero bandwidth *)

Lemma signed_inf_pos (r : R) : 0 < r -> signed_inf r = PInf.
Proof.
  intros Hr. unfold signed_inf.
  destruct (Req_dec_T r 0) as [E | _]; [lra | ].
  destruct (Rlt_dec 0 r) as [_ | N]; [reflexivity | contradiction].
Qed.

Lemma calculateDispatchTimeMs_zero_bandwidth (T P L : R) :
  0 < T -> 0 < P ->
  calculateDispatchTimeMs (Fin T) (Fin P) (Fin L) (Fin 0) = PInf.
Proof.
  intros HT HP.
  unfold calculateDispatchTimeMs, calculateBytesPerToken.
  cbn [MOE_CONFIG.TOP_K_EXPERTS MOE_CONFIG.HIDDEN_DIMENSION
       MOE_CONFIG.BYTES_PER_ELEMENT mul add].
  rewrite (div_Fin L 1000) by lra.
  rewrite (div_Fin _ P) by lra.
  unfold div at 1.
  destruct (Req_dec_T (0 * 1e9) 0) as [_ | N]; [ | lra].
  rewrite signed_inf_pos.
  - cbn [mul]. rewrite signed_inf_pos by lra. reflexivity.
  - apply Rdiv_lt_0_compat; lra.
Qed.

(** C5, claim as stated, refuted: the model has no parameter check.  At
    [calculateMoETimings(1024, 16, 25, 0, 0.45, 0.1)], a zero bandwidth, it
    returns a record whose [dispatchMs] is [+Infinity]. *)
Lemma zero_bandwidth_returns_infinity :
  let t := calculateMoETimings (Fin 1024) (Fin 16) (Fin 25) (Fin 0)
             (Fin 0.45) (Fin 0.1) in
  dispatchMs t = PInf /\ finiteTimings t = false.
Proof.
  cbv zeta. unfold finiteTimings, calculateMoETimings.
  cbn [dispatchMs computeMs combineMs sequentialTotalMs dboOverlappedMs].
  rewrite calculateDispatchTimeMs_zero_bandwidth by lra.
  split; reflexivity.
Qed.

(** C5, amended: the cost model checks no parameter and always returns a
    record; for a zero bandwidth with [tokenCount > 0] and [P > 0] (any
    finite latency, compute cost and skew) the returned record has
    [dispatchMs = combineMs = sequentialTotalMs = dboOverlappedMs =
    +Infinity] and a finite [computeMs]. *)
Theorem zero_bandwidth_timings (T P L cu s : R) :
  0 < T -> 0 < P ->
  let t := calculateMoETimings (Fin T) (Fin P) (Fin L) (Fin 0)
             (Fin cu) (Fin s) in
  dispatchMs t = PInf
  /\ combineMs t = PInf
  /\ isFinite (computeMs t) = true
  /\ sequentialTotalMs t = PInf
  /\ dboOverlappedMs t = PInf
  /\ finiteTimings t = false.
Proof.
  intros HT HP t. subst t.
  unfold finiteTimings, calculateMoETimings.
  cbn [dispatchMs computeMs combineMs sequentialTotalMs dboOverlappedMs].
  rewrite calculateDispatchTimeMs_zero_bandwidth by assumption.
  rewrite calculateComputeTimeMs_Fin by assumption.
  repeat split.
Qed.

Lemma zero_bandwidth_timings_witness :
  let t := calculateMoETimings (Fin 1024) (Fin 16) (Fin 25) (Fin 0)
             (Fin 0.45) (Fin 0.1) in
  dispatchMs t = PInf
  /\ combineMs t = PInf
  /\ isFinite (computeMs t) = true
  /\ sequentialTotalMs t = PInf
  /\ dboOverlappedMs t = PInf
  /\ finiteTimings t = false.
Proof.
  apply (zero_bandwidth_timings 1024 16 25 0.45 0.1); lra.
Defined.

(** The same holds for a zero rank count with a positive bandwidth. *)
Lemma calculateDispatchTimeMs_zero_ranks (T L bw : R) :
  0 < T -> 0 < bw ->
  calculateDispatchTimeMs (Fin T) (Fin 0) (Fin L) (Fin bw) = PInf.
Proof.
  intros HT Hbw.
  unfold calculateDispatchTimeMs, calculateBytesPerToken.
  cbn [MOE_CONFIG.TOP_K_EXPERTS MOE_CONFIG.HIDDEN_DIMENSION
       MOE_CONFIG.BYTES_PER_ELEMENT mul add].
  rewrite (div_Fin L 1000) by lra.
  unfold div at 2.
  destruct (Req_dec_T 0 0) as [_ | N]; [ | contradiction].
  rewrite signed_inf_pos by lra.
  unfold div.
  destruct (Rlt_dec (bw * 1e9) 0) as [N | _]; [lra | ].
  cbn [mul]. rewrite signed_inf_pos by lra. reflexivity.
Qed.

(** The infinite times reach the schedule unchanged: the dispatch and
    combine blocks built from them have the duration [+Infinity]. *)
Lemma infinite_durations_scheduled :
  let t := calculateMoETimings (Fin 1024) (Fin 16) (Fin 25) (Fin 0)
             (Fin 0.45) (Fin 0.1) in
  map duration (batchA (_buildSchedule t (mkOptions true false)))
  = [PInf; computeMs t; PInf].
Proof.
  cbv zeta. unfold _buildSchedule, calculateMoETimings.
  cbn [enableDBO enableSplit negb dispatchMs computeMs combineMs batchA map
       duration].
  rewrite calculateDispatchTimeMs_zero_bandwidth by lra.
  reflexivity.
Qed.

(** ** The communication share at 256 and at 1,048,576 tokens *)

Lemma commShare_Fin (T P L bw cu s : R) :
  0 < P -> bw <> 0 ->
  let d := dispatchFormula T P L bw in
  let c := computeFormula T P cu s in
  d + c + d <> 0 ->
  commShare (calculateMoETimings (Fin T) (Fin P) (Fin L) (Fin bw)
               (Fin cu) (Fin s))
  = Fin ((d + d) / (d + c + d)).
Proof.
  intros HP Hbw d c Hne. subst d c.
  rewrite calculateMoETimings_Fin by assumption.
  unfold commShare. cbn zeta.
  cbn [dispatchMs combineMs sequentialTotalMs add].
  apply div_Fin. assumption.
Qed.

Lemma dispatchFormula_linear (T P L bw : R) :
  P <> 0 -> bw <> 0 ->
  dispatchFormula T P L bw
  = L / 1000 + T * (2 * 6144 * 2 / P / (bw * 1e9) * 1000).
Proof. intros HP Hbw. unfold dispatchFormula. field. lra. Qed.

Lemma sqrt_Rmax_256 : R_sqrt.sqrt (Rmax 1 256) = 16.
Proof.
  rewrite Rmax_right by lra.
  replace 256 with (16 * 16) by lra. apply sqrt_square. lra.
Qed.

Lemma sqrt_Rmax_1048576 : R_sqrt.sqrt (Rmax 1 1048576) = 1024.
Proof.
  rewrite Rmax_right by lra.
  replace 1048576 with (1024 * 1024) by lra. apply sqrt_square. lra.
Qed.

Lemma computeFormula_256 (P cu s : R) :
  P <> 0 ->
  computeFormula 256 P cu s
  = (2 / P * (1 + 2.2 * s) * (1 + 0.12 * Rlog2 P) * cu / 1000) * 256 * 1.2.
Proof.
  intros HP. unfold computeFormula. rewrite sqrt_Rmax_256.
  replace (1 + 3.2 / 16) with 1.2 by lra. field. lra.
Qed.

Lemma computeFormula_1048576 (P cu s : R) :
  P <> 0 ->
  computeFormula 1048576 P cu s
  = (2 / P * (1 + 2.2 * s) * (1 + 0.12 * Rlog2 P) * cu / 1000)
    * 1048576 * 1.003125.
Proof.
  intros HP. unfold computeFormula. rewrite sqrt_Rmax_1048576.
  replace (1 + 3.2 / 1024) with 1.003125 by lra. field. lra.
Qed.

(** The polynomial inequality behind the bound: [K] is the compute cost per
    routed token and unit of variation, [Lm] the latency in ms and [a] the
    transfer time per token. *)
Lemma share_poly (K Lm a : R) :
  0 <= K -> 0 <= Lm -> 0 < a ->
  let d1 := Lm + 256 * a in
  let c1 := K * 256 * 1.2 in
  let d2 := Lm + 1048576 * a in
  let c2 := K * 1048576 * 1.003125 in
  (d2 + d2) * (d1 + c1 + d1)
  <= (d1 + d1) * (d2 + c2 + d2) + 0.045 * ((d1 + c1 + d1) * (d2 + c2 + d2)).
Proof.
  intros HK HL Ha d1 c1 d2 c2. subst d1 c1 d2 c2.
  pose proof (Rmult_le_pos _ _ HK HL).
  pose proof (Rmult_le_pos _ _ HK (Rlt_le _ _ Ha)).
  pose proof (Rmult_le_pos _ _ HL (Rlt_le _ _ Ha)).
  pose proof (Rle_0_sqr Lm). pose proof (Rle_0_sqr K).
  pose proof (Rle_0_sqr (a - 0.543 * K)).
  unfold Rsqr in *.
  nra.
Qed.

Lemma frac_le (a b c d e : R) :
  0 < b -> 0 < d -> a * d <= c * b + e * (d * b) -> a / b <= c / d + e.
Proof.
  intros Hb Hd H.
  apply Rmult_le_reg_r with (b * d); [nra | ].
  replace (a / b * (b * d)) with (a * d) by (field; lra).
  replace ((c / d + e) * (b * d)) with (c * b + e * (d * b)) by (field; lra).
  assumption.
Qed.

(** C8, claim as stated, refuted: with the parameters of the self-test
    except a zero latency ([P = 16], [latencyUs = 0], [bandwidthGBps = 25],
    [computeUsPerToken = 0.45], [skew = 0.1]) the communication share is
    about 0.502 at 256 tokens and about 0.547 at 1,048,576 tokens: larger
    by more than 0.01. *)
Lemma commShare_tolerance_exceeded_zero_latency :
  let small := calculateMoETimings (Fin 256) (Fin 16) (Fin 0) (Fin 25)
                 (Fin 0.45) (Fin 0.1) in
  let large := calculateMoETimings (Fin 1048576) (Fin 16) (Fin 0) (Fin 25)
                 (Fin 0.45) (Fin 0.1) in
  (commShare large <=? commShare small + Fin 0.01)%js = false.
Proof.
  cbv zeta.
  assert (dispatchFormula 256 16 0 25 = 0.01572864) as Hd1
    by (unfold dispatchFormula; lra).
  assert (dispatchFormula 1048576 16 0 25 = 64.42450944) as Hd2
    by (unfold dispatchFormula; lra).
  assert (computeFormula 256 16 0.45 0.1 = 0.031200768) as Hc1
    by (rewrite computeFormula_256 by lra; rewrite Rlog2_16; lra).
  assert (computeFormula 1048576 16 0.45 0.1 = 106.8314296320) as Hc2
    by (rewrite computeFormula_1048576 by lra; rewrite Rlog2_16; lra).
  rewrite !commShare_Fin by (rewrite ?Hd1, ?Hd2, ?Hc1, ?Hc2; lra).
  rewrite Hd1, Hd2, Hc1, Hc2. cbn [add].
  apply leb_Fin_false. lra.
Qed.

(** C8, amended: for every parameter set with [P >= 1],
    [bandwidthGBps > 0], [latencyMicroseconds >= 0],
    [computeMicrosecondsPerToken >= 0] and [skew] in [[0,1]], the
    communication share at 1,048,576 tokens is at most the share at 256
    tokens plus 0.045. *)
Theorem commShare_large_le_small (P L bw cu s : R) :
  1 <= P -> 0 < bw -> 0 <= L -> 0 <= cu -> 0 <= s <= 1 ->
  let small := calculateMoETimings (Fin 256) (Fin P) (Fin L) (Fin bw)
                 (Fin cu) (Fin s) in
  let large := calculateMoETimings (Fin 1048576) (Fin P) (Fin L) (Fin bw)
                 (Fin cu) (Fin s) in
  (commShare large <=? commShare small + Fin 0.045)%js = true.
Proof.
  intros HP Hbw HL Hcu Hs small large. subst small large.
  pose proof (dispatchFormula_pos 256 P L bw) as Hd1.
  pose proof (dispatchFormula_pos 1048576 P L bw) as Hd2.
  pose proof (computeFormula_nonneg 256 P cu s) as Hc1.
  pose proof (computeFormula_nonneg 1048576 P cu s) as Hc2.
  rewrite !commShare_Fin by lra. cbn [add].
  apply leb_Fin.
  apply frac_le; [lra | lra | ].
  rewrite !dispatchFormula_linear by lra.
  rewrite computeFormula_256, computeFormula_1048576 by lra.
  set (K := 2 / P * (1 + 2.2 * s) * (1 + 0.12 * Rlog2 P) * cu / 1000).
  set (a := 2 * 6144 * 2 / P / (bw * 1e9) * 1000).
  assert (0 <= K) as HK.
  { pose proof (Rlog2_nonneg P HP).
    assert (0 <= 2 / P) by (apply Rdiv_nonneg; lra).
    unfold K. apply Rdiv_nonneg; [ | lra].
    do 3 (apply Rmult_le_pos; [ | lra]). assumption. }
  assert (0 < a) as Ha.
  { unfold a.
    assert (0 < 2 * 6144 * 2 / P / (bw * 1e9))
      by (apply Rdiv_lt_0_compat; [apply Rdiv_lt_0_compat | ]; lra).
    lra. }
  assert (0 <= L / 1000) as HLm by lra.
  pose proof (share_poly K (L / 1000) a HK HLm Ha) as Hpoly.
  cbv zeta in Hpoly.
  lra.
Qed.

Lemma commShare_large_le_small_witness :
  let small := calculateMoETimings (Fin 256) (Fin 16) (Fin 25) (Fin 25)
                 (Fin 0.45) (Fin 0.1) in
  let large := calculateMoETimings (Fin 1048576) (Fin 16) (Fin 25) (Fin 25)
                 (Fin 0.45) (Fin 0.1) in
  (commShare large <=? commShare small + Fin 0.045)%js = true.
Proof.
  apply (commShare_large_le_small 16 25 25 0.45 0.1); lra.
Defined.

(** The third self-test passes: with the parameters of [runSelfTests]
    ([P = 16], [latencyUs = 25], [bandwidthGBps = 25],
    [computeUsPerToken = 0.45], [skew = 0.1]) the tolerance 0.01 is met. *)
Lemma selfTest3_passes : selfTest3 = true.
Proof.
  unfold selfTest3. cbv zeta.
  assert (dispatchFormula 256 16 25 25 = 0.04072864) as Hd1
    by (unfold dispatchFormula; lra).
  assert (dispatchFormula 1048576 16 25 25 = 64.44950944) as Hd2
    by (unfold dispatchFormula; lra).
  assert (computeFormula 256 16 0.45 0.1 = 0.031200768) as Hc1
    by (rewrite computeFormula_256 by lra; rewrite Rlog2_16; lra).
  assert (computeFormula 1048576 16 0.45 0.1 = 106.8314296320) as Hc2
    by (rewrite computeFormula_1048576 by lra; rewrite Rlog2_16; lra).
  rewrite !commShare_Fin by (rewrite ?Hd1, ?Hd2, ?Hc1, ?Hc2; lra).
  rewrite Hd1, Hd2, Hc1, Hc2. cbn [add].
  apply leb_Fin. lra.
Qed.

(** ** The crossover scan *)

Lemma sub_self_not_negative (x : num) : ((x - x) <? Fin 0)%js = false.
Proof.
  destruct x as [a | | | ]; try reflexivity.
  unfold sub, neg, add, ltb.
  destruct (Rlt_dec (a + - a) 0) as [E | _]; [lra | reflexivity].
Qed.

(** C9: when the LL and HT values coincide at every sample point the scan
    leaves [crossoverTokens] at [null]: no threshold, negative, non-finite
    or other, is reported. *)
Theorem crossoverTokens_coincident_curves (points : list CurvePoint) :
  Forall (fun p => llTime p = htTime p) points ->
  crossoverTokens points = None.
Proof.
  induction 1 as [ | p1 rest Hp1 Hrest IH]; [reflexivity | ].
  destruct rest as [ | p2 rest']; [reflexivity | ].
  change (crossoverTokens (p1 :: p2 :: rest'))
    with (if ((llTime p1 - htTime p1) <? Fin 0)%js
             && ((llTime p2 - htTime p2) >=? Fin 0)%js
          then Some (exp (log (tokens p1)
                          + abs (llTime p1 - htTime p1)
                            / (abs (llTime p1 - htTime p1)
                               + abs (llTime p2 - htTime p2))
                            * (log (tokens p2) - log (tokens p1)))%js)
          else crossoverTokens (p2 :: rest')).
  rewrite Hp1, sub_self_not_negative. exact IH.
Qed.

Lemma crossoverTokens_coincident_curves_witness :
  crossoverTokens
    [ mkCurvePoint (Fin 1) (Fin 0.05) (Fin 0.05);
      mkCurvePoint (Fin 1024) (Fin 0.5) (Fin 0.5);
      mkCurvePoint PInf PInf PInf ] = None.
Proof.
  apply crossoverTokens_coincident_curves.
  repeat constructor.
Defined.

(** ** The overlapped schedule *)

Lemma _buildSchedule_overlapped (t : Timings) (split : bool) (D C B : R) :
  dispatchMs t = Fin D -> computeMs t = Fin C -> combineMs t = Fin B ->
  let d := halved split D in
  let c := halved split C in
  let b := halved split B in
  let computeB := Rmax (0 + d + d) (0 + d + c) in
  let combineA := Rmax (0 + d + c) (0 + d + d) in
  _buildSchedule t (mkOptions true split)
  = {| batchA := [ mkBlock dispatch (Fin 0) (Fin d);
                   mkBlock compute (Fin (0 + d)) (Fin c);
                   mkBlock combine (Fin combineA) (Fin b) ];
       batchB := [ mkBlock dispatch (Fin (0 + d)) (Fin d);
                   mkBlock compute (Fin computeB) (Fin c);
                   mkBlock combine (Fin (Rmax (computeB + c) (combineA + b)))
                     (Fin b) ] |}.
Proof.
  intros HD HC HB. unfold _buildSchedule, halved.
  cbn [enableDBO enableSplit negb]. rewrite HD, HC, HB.
  destruct split; [rewrite !div_Fin by lra | ]; reflexivity.
Qed.

Lemma halved_nonneg (split : bool) (x : R) : 0 <= x -> 0 <= halved split x.
Proof. intros Hx. unfold halved. destruct split; lra. Qed.

Ltac bound_Rmax x y :=
  pose proof (Rmax_l x y); pose proof (Rmax_r x y);
  let m := fresh "m" in
  set (m := Rmax x y) in *; clearbody m.

Ltac split_Rmax :=
  repeat match goal with
  | |- context [Rmax ?x ?y] => bound_Rmax x y
  | _ : context [Rmax ?x ?y] |- _ => bound_Rmax x y
  end.

Ltac block_order :=
  unfold precedes, blockEnd; cbn [start duration add max];
  apply leb_Fin; split_Rmax; lra.

(** C2: for nonnegative finite durations the overlapped schedule has
    [dispatchA.start = 0], [dispatchB.start = dispatchA.end = d],
    [computeA.start = d], [computeB.start = max(dispatchB.end, computeA.end)],
    [combineA.start = max(computeA.end, dispatchB.end)],
    [combineB.start = max(computeB.end, combineA.end)], its total duration
    is [max(combineA.end, combineB.end)], and
    [combineB.start >= combineA.end].  Here [d], [c], [b] are the durations
    of the blocks: the three input times, halved when [enableSplit] is
    set. *)
Theorem overlapped_schedule_starts
    (t : Timings) (split : bool) (D C B : R) :
  0 <= D -> 0 <= C -> 0 <= B ->
  dispatchMs t = Fin D -> computeMs t = Fin C -> combineMs t = Fin B ->
  let d := halved split D in
  let c := halved split C in
  let b := halved split B in
  let schedule := _buildSchedule t (mkOptions true split) in
  exists dispatchA computeA combineA dispatchB computeB combineB : Block,
    batchA schedule = [dispatchA; computeA; combineA]
    /\ batchB schedule = [dispatchB; computeB; combineB]
    /\ map phase (batchA schedule) = [dispatch; compute; combine]
    /\ map phase (batchB schedule) = [dispatch; compute; combine]
    /\ map duration (batchA schedule) = [Fin d; Fin c; Fin b]
    /\ map duration (batchB schedule) = [Fin d; Fin c; Fin b]
    /\ start dispatchA = Fin 0
    /\ blockEnd dispatchA = Fin d
    /\ start dispatchB = blockEnd dispatchA
    /\ start computeA = Fin d
    /\ start computeB = max (blockEnd dispatchB) (blockEnd computeA)
    /\ start combineA = max (blockEnd computeA) (blockEnd dispatchB)
    /\ start combineB = max (blockEnd computeB) (blockEnd combineA)
    /\ _calculateTotalDuration schedule true
       = Returns (max (blockEnd combineA) (blockEnd combineB))
    /\ (start combineB >=? blockEnd combineA)%js = true.
Proof.
  intros HD HC HB ED EC EB d c b schedule. subst schedule.
  rewrite (_buildSchedule_overlapped t split D C B ED EC EB).
  cbv zeta. fold d c b.
  do 6 eexists.
  split; [reflexivity | ]. split; [reflexivity | ].
  unfold blockEnd. cbn [batchA batchB map phase duration start add max].
  repeat split; try (f_equal; lra).
  unfold geb. apply leb_Fin. apply Rmax_r.
Qed.

Lemma overlapped_schedule_starts_witness :
  let t := mkTimings (Fin 3) (Fin 10) (Fin 3) (Fin 16) (Fin 10) in
  let schedule := _buildSchedule t (mkOptions true false) in
  exists dispatchA computeA combineA dispatchB computeB combineB : Block,
    batchA schedule = [dispatchA; computeA; combineA]
    /\ batchB schedule = [dispatchB; computeB; combineB]
    /\ map phase (batchA schedule) = [dispatch; compute; combine]
    /\ map phase (batchB schedule) = [dispatch; compute; combine]
    /\ map duration (batchA schedule) = [Fin 3; Fin 10; Fin 3]
    /\ map duration (batchB schedule) = [Fin 3; Fin 10; Fin 3]
    /\ start dispatchA = Fin 0
    /\ blockEnd dispatchA = Fin 3
    /\ start dispatchB = blockEnd dispatchA
    /\ start computeA = Fin 3
    /\ start computeB = max (blockEnd dispatchB) (blockEnd computeA)
    /\ start combineA = max (blockEnd computeA) (blockEnd dispatchB)
    /\ start combineB = max (blockEnd computeB) (blockEnd combineA)
    /\ _calculateTotalDuration schedule true
       = Returns (max (blockEnd combineA) (blockEnd combineB))
    /\ (start combineB >=? blockEnd combineA)%js = true.
Proof.
  apply (overlapped_schedule_starts
           (mkTimings (Fin 3) (Fin 10) (Fin 3) (Fin 16) (Fin 10))
           false 3 10 3); try lra; reflexivity.
Defined.

(** ** No validation in the schedule builder *)

(** C6, claim as stated, refuted: negative durations are not rejected.
    From [dispatchMs = combineMs = -1] and [computeMs = 1] the overlapped
    schedule is built, with blocks of negative duration. *)
Lemma negative_durations_scheduled :
  _buildSchedule (mkTimings (Fin (-1)) (Fin 1) (Fin (-1)) (Fin (-1)) (Fin 1))
    (mkOptions true false)
  = {| batchA := [ mkBlock dispatch (Fin 0) (Fin (-1));
                   mkBlock compute (Fin (0 + -1)) (Fin 1);
                   mkBlock combine (Fin (Rmax (0 + -1 + 1) (0 + -1 + -1)))
                     (Fin (-1)) ];
       batchB := [ mkBlock dispatch (Fin (0 + -1)) (Fin (-1));
                   mkBlock compute (Fin (Rmax (0 + -1 + -1) (0 + -1 + 1)))
                     (Fin 1);
                   mkBlock combine
                     (Fin (Rmax (Rmax (0 + -1 + -1) (0 + -1 + 1) + 1)
                             (Rmax (0 + -1 + 1) (0 + -1 + -1) + -1)))
                     (Fin (-1)) ] |}.
Proof. reflexivity. Qed.

(** C6, amended: the schedule builder checks nothing.  For every [Timings]
    record, negative and non-finite durations included, and for every
    value of the two flags, it builds the blocks dispatch, compute, combine
    of batch A with the input durations (halved under [enableSplit]), and
    the same three blocks of batch B when [enableDBO] is set, none
    otherwise. *)
Theorem _buildSchedule_total (t : Timings) (options : Options) :
  let half (x : num) :=
    if enableSplit options then (x / Fin 2)%js else x in
  let durations :=
    [half (dispatchMs t); half (computeMs t); half (combineMs t)] in
  let schedule := _buildSchedule t options in
  map phase (batchA schedule) = [dispatch; compute; combine]
  /\ map duration (batchA schedule) = durations
  /\ (if enableDBO options
      then map phase (batchB schedule) = [dispatch; compute; combine]
           /\ map duration (batchB schedule) = durations
      else batchB schedule = []).
Proof.
  destruct options as [dbo split]. unfold _buildSchedule.
  cbn [enableDBO enableSplit].
  destruct dbo, split; cbn; repeat split.
Qed.

(** ** One block at a time on each resource *)

Lemma precedes_not_overlap (b1 b2 : Block) :
  precedes b1 b2 -> ~ overlap b1 b2.
Proof.
  unfold precedes, overlap, active.
  intros Hord (x & [_ Hx1] & [Hx2 _]).
  destruct (blockEnd b1) as [e | | | ], (start b2) as [s | | | ];
    cbn in Hord, Hx1, Hx2; try discriminate.
  apply ltb_Fin in Hx1. apply leb_Fin in Hord. apply leb_Fin in Hx2. lra.
Qed.

Lemma follows_not_overlap (b1 b2 : Block) :
  precedes b2 b1 -> ~ overlap b1 b2.
Proof.
  intros Hord (x & H1 & H2).
  apply (precedes_not_overlap b2 b1 Hord). exists x. split; assumption.
Qed.

(** C10: for nonnegative finite durations, in the overlapped schedule the
    four fabric blocks follow one another in the order dispatch A,
    dispatch B, combine A, combine B, each ending before the next starts,
    and compute A ends before compute B starts; hence no two fabric blocks
    and no two compute blocks are in progress at a common instant. *)
Theorem overlapped_schedule_exclusive
    (t : Timings) (split : bool) (D C B : R) :
  0 <= D -> 0 <= C -> 0 <= B ->
  dispatchMs t = Fin D -> computeMs t = Fin C -> combineMs t = Fin B ->
  let schedule := _buildSchedule t (mkOptions true split) in
  exists dispatchA computeA combineA dispatchB computeB combineB : Block,
    batchA schedule = [dispatchA; computeA; combineA]
    /\ batchB schedule = [dispatchB; computeB; combineB]
    /\ fabricBlocks schedule = [dispatchA; combineA; dispatchB; combineB]
    /\ computeBlocks schedule = [computeA; computeB]
    /\ precedes dispatchA dispatchB
    /\ precedes dispatchB combineA
    /\ precedes combineA combineB
    /\ precedes computeA computeB
    /\ ForallOrdPairs (fun b1 b2 => ~ overlap b1 b2) (fabricBlocks schedule)
    /\ ForallOrdPairs (fun b1 b2 => ~ overlap b1 b2) (computeBlocks schedule).
Proof.
  intros HD HC HB ED EC EB schedule. subst schedule.
  rewrite (_buildSchedule_overlapped t split D C B ED EC EB).
  cbv zeta.
  pose proof (halved_nonneg split D HD) as Hd.
  pose proof (halved_nonneg split C HC) as Hc.
  pose proof (halved_nonneg split B HB) as Hb.
  set (d := halved split D) in *.
  set (c := halved split C) in *.
  set (b := halved split B) in *.
  do 6 eexists.
  split; [reflexivity | ]. split; [reflexivity | ].
  split; [reflexivity | ]. split; [reflexivity | ].
  split; [block_order | ]. split; [block_order | ].
  split; [block_order | ]. split; [block_order | ].
  unfold fabricBlocks, computeBlocks.
  cbn [batchA batchB app filter onFabric phase negb].
  split; repeat apply FOP_cons; try apply FOP_nil;
    repeat apply Forall_cons; try apply Forall_nil;
    first [ apply precedes_not_overlap; block_order
          | apply follows_not_overlap; block_order ].
Qed.

Lemma overlapped_schedule_exclusive_witness :
  let t := mkTimings (Fin 3) (Fin 10) (Fin 3) (Fin 16) (Fin 10) in
  let schedule := _buildSchedule t (mkOptions true false) in
  exists dispatchA computeA combineA dispatchB computeB combineB : Block,
    batchA schedule = [dispatchA; computeA; combineA]
    /\ batchB schedule = [dispatchB; computeB; combineB]
    /\ fabricBlocks schedule = [dispatchA; combineA; dispatchB; combineB]
    /\ computeBlocks schedule = [computeA; computeB]
    /\ precedes dispatchA dispatchB
    /\ precedes dispatchB combineA
    /\ precedes combineA combineB
    /\ precedes computeA computeB
    /\ ForallOrdPairs (fun b1 b2 => ~ overlap b1 b2) (fabricBlocks schedule)
    /\ ForallOrdPairs (fun b1 b2 => ~ overlap b1 b2) (computeBlocks schedule).
Proof.
  apply (overlapped_schedule_exclusive
           (mkTimings (Fin 3) (Fin 10) (Fin 3) (Fin 16) (Fin 10))
           false 3 10 3); try lra; reflexivity.
Defined.

(** * Further properties of the script *)

(** ** The cost model: sign, speed-up and monotonicity *)

Lemma computeFormula_pos (T P cu s : R) :
  0 < T -> 1 <= P -> 0 < cu -> 0 <= s -> 0 < computeFormula T P cu s.
Proof.
  intros HT HP Hcu Hs. unfold computeFormula.
  pose proof (randomVariation_pos T) as Hv.
  pose proof (Rlog2_nonneg P HP) as Hl.
  assert (0 < T * 2 / P) by (apply Rdiv_lt_0_compat; lra).
  apply Rdiv_lt_0_compat; [ | lra].
  do 4 (apply Rmult_lt_0_compat; [ | lra]). assumption.
Qed.

(** X1: for a positive token count and a positive compute cost per token,
    with the other parameters in their documented domain, the five times
    are finite and strictly positive (the first self-test, for every such
    parameter set). *)
Theorem timings_finite_positive (T P L bw cu s : R) :
  validParameters T P L bw cu s -> 0 < T -> 0 < cu ->
  exists d c total dbo : R,
    calculateMoETimings (Fin T) (Fin P) (Fin L) (Fin bw) (Fin cu) (Fin s)
    = mkTimings (Fin d) (Fin c) (Fin d) (Fin total) (Fin dbo)
    /\ 0 < d /\ 0 < c /\ 0 < total /\ 0 < dbo.
Proof.
  intros [_ HP HL Hbw _ Hs] HT Hcu.
  rewrite calculateMoETimings_Fin by lra. cbv zeta.
  pose proof (dispatchFormula_pos T P L bw) as Hd.
  pose proof (computeFormula_pos T P cu s) as Hc.
  do 4 eexists. split; [reflexivity | ].
  pose proof (Rmax_r (dispatchFormula T P L bw + dispatchFormula T P L bw)
                (computeFormula T P cu s)).
  repeat split; lra.
Qed.

Lemma timings_finite_positive_witness :
  exists d c total dbo : R,
    calculateMoETimings (Fin 1024) (Fin 16) (Fin 25) (Fin 25) (Fin 0.45)
      (Fin 0.1)
    = mkTimings (Fin d) (Fin c) (Fin d) (Fin total) (Fin dbo)
    /\ 0 < d /\ 0 < c /\ 0 < total /\ 0 < dbo.
Proof.
  apply (timings_finite_positive 1024 16 25 25 0.45 0.1);
    [constructor | | ]; lra.
Defined.

(** X2: overlap at most halves the step time: for valid parameters
    [sequentialTotalMs <= 2 * dboOverlappedMs]. *)
Theorem sequential_le_twice_dbo (T P L bw cu s : R) :
  validParameters T P L bw cu s ->
  let t := calculateMoETimings (Fin T) (Fin P) (Fin L) (Fin bw)
             (Fin cu) (Fin s) in
  (sequentialTotalMs t <=? Fin 2 * dboOverlappedMs t)%js = true.
Proof.
  intros [HT HP HL Hbw Hcu Hs] t. subst t.
  rewrite calculateMoETimings_Fin by lra. cbv zeta.
  cbn [sequentialTotalMs dboOverlappedMs mul].
  pose proof (dispatchFormula_nonneg T P L bw) as Hd.
  pose proof (computeFormula_nonneg T P cu s) as Hc.
  apply leb_Fin. split_Rmax. lra.
Qed.

Lemma sequential_le_twice_dbo_witness :
  let t := calculateMoETimings (Fin 8192) (Fin 32) (Fin 25) (Fin 50)
             (Fin 0.6) (Fin 0.05) in
  (sequentialTotalMs t <=? Fin 2 * dboOverlappedMs t)%js = true.
Proof.
  apply (sequential_le_twice_dbo 8192 32 25 50 0.6 0.05).
  constructor; lra.
Defined.

(** X3: the compute time does not decrease when the skew grows (the fourth
    self-test, for every valid parameter set and every pair of skews). *)
Theorem computeMs_monotone_in_skew (T P L bw cu s1 s2 : R) :
  validParameters T P L bw cu s1 -> s1 <= s2 ->
  (computeMs (calculateMoETimings (Fin T) (Fin P) (Fin L) (Fin bw)
                (Fin cu) (Fin s1))
   <=? computeMs (calculateMoETimings (Fin T) (Fin P) (Fin L) (Fin bw)
                    (Fin cu) (Fin s2)))%js = true.
Proof.
  intros [HT HP HL Hbw Hcu Hs] Hle.
  rewrite !calculateMoETimings_Fin by lra. cbv zeta. cbn [computeMs].
  apply leb_Fin. unfold computeFormula.
  pose proof (randomVariation_pos T) as Hv.
  pose proof (Rlog2_nonneg P HP) as Hl.
  assert (0 <= T * 2 / P) as Hm by (apply Rdiv_nonneg; lra).
  set (v := 1 + 3.2 / R_sqrt.sqrt (Rmax 1 T)) in *.
  set (m := T * 2 / P) in *.
  set (k := 1 + 0.12 * Rlog2 P).
  assert (0 <= k) by (unfold k; lra).
  apply Rmult_le_compat_r; [lra | ].
  apply Rmult_le_compat_r; [lra | ].
  apply Rmult_le_compat_r; [lra | ].
  apply Rmult_le_compat_l; [ | lra].
  apply Rmult_le_pos; lra.
Qed.

Lemma computeMs_monotone_in_skew_witness :
  (computeMs (calculateMoETimings (Fin 4096) (Fin 16) (Fin 25) (Fin 25)
                (Fin 0.45) (Fin 0))
   <=? computeMs (calculateMoETimings (Fin 4096) (Fin 16) (Fin 25) (Fin 25)
                    (Fin 0.45) (Fin 1)))%js = true.
Proof.
  apply (computeMs_monotone_in_skew 4096 16 25 25 0.45 0 1);
    [constructor | ]; lra.
Defined.

Lemma div_sqrt (x : R) : 0 < x -> x / R_sqrt.sqrt x = R_sqrt.sqrt x.
Proof.
  intros Hx. pose proof (sqrt_lt_R0 x Hx) as Hs.
  pose proof (sqrt_sqrt x (Rlt_le _ _ Hx)) as Hq.
  apply Rmult_eq_reg_r with (R_sqrt.sqrt x); [ | lra].
  unfold Rdiv. rewrite Rmult_assoc, Rinv_l by lra. lra.
Qed.

(** The routed load [T * (1 + 3.2 / sqrt (max 1 T))] grows with [T]. *)
Lemma variation_load_monotone (T1 T2 : R) :
  0 <= T1 <= T2 ->
  T1 * (1 + 3.2 / R_sqrt.sqrt (Rmax 1 T1))
  <= T2 * (1 + 3.2 / R_sqrt.sqrt (Rmax 1 T2)).
Proof.
  assert (forall T, 0 <= T <= 1 ->
            T * (1 + 3.2 / R_sqrt.sqrt (Rmax 1 T)) = 4.2 * T) as Hlow.
  { intros T HT. rewrite Rmax_left by lra. rewrite sqrt_1. lra. }
  assert (forall T, 1 <= T ->
            T * (1 + 3.2 / R_sqrt.sqrt (Rmax 1 T))
            = T + 3.2 * R_sqrt.sqrt T) as Hhigh.
  { intros T HT. rewrite Rmax_right by lra.
    rewrite Rmult_plus_distr_l.
    replace (T * (3.2 / R_sqrt.sqrt T)) with (3.2 * (T / R_sqrt.sqrt T))
      by (unfold Rdiv; ring).
    rewrite div_sqrt by lra. lra. }
  assert (forall a b, 1 <= a <= b ->
            a + 3.2 * R_sqrt.sqrt a <= b + 3.2 * R_sqrt.sqrt b) as Hmono.
  { intros a b Hab.
    assert (R_sqrt.sqrt a <= R_sqrt.sqrt b) by (apply sqrt_le_1_alt; lra).
    lra. }
  intros [H1 H12].
  destruct (Rle_dec T2 1) as [H2 | H2].
  - rewrite !Hlow by lra. lra.
  - destruct (Rle_dec 1 T1) as [H1' | H1'].
    + rewrite !Hhigh by lra. apply Hmono. lra.
    + rewrite Hlow by lra. rewrite Hhigh by lra.
      pose proof (Hmono 1 T2) as H. rewrite sqrt_1 in H. lra.
Qed.

(** X4: with the other parameters valid and fixed, none of the dispatch,
    compute, sequential and overlapped times decreases when the token
    count grows. *)
Theorem timings_monotone_in_tokenCount (T1 T2 P L bw cu s : R) :
  validParameters T1 P L bw cu s -> T1 <= T2 ->
  let t1 := calculateMoETimings (Fin T1) (Fin P) (Fin L) (Fin bw)
              (Fin cu) (Fin s) in
  let t2 := calculateMoETimings (Fin T2) (Fin P) (Fin L) (Fin bw)
              (Fin cu) (Fin s) in
  (dispatchMs t1 <=? dispatchMs t2)%js = true
  /\ (computeMs t1 <=? computeMs t2)%js = true
  /\ (sequentialTotalMs t1 <=? sequentialTotalMs t2)%js = true
  /\ (dboOverlappedMs t1 <=? dboOverlappedMs t2)%js = true.
Proof.
  intros [HT HP HL Hbw Hcu Hs] Hle t1 t2. subst t1 t2.
  rewrite !calculateMoETimings_Fin by lra. cbv zeta.
  cbn [dispatchMs computeMs sequentialTotalMs dboOverlappedMs].
  assert (dispatchFormula T1 P L bw <= dispatchFormula T2 P L bw) as Hd.
  { rewrite !dispatchFormula_linear by lra.
    assert (0 < 2 * 6144 * 2 / P / (bw * 1e9))
      by (apply Rdiv_lt_0_compat; [apply Rdiv_lt_0_compat | ]; lra).
    nra. }
  assert (computeFormula T1 P cu s <= computeFormula T2 P cu s) as Hc.
  { unfold computeFormula.
    pose proof (variation_load_monotone T1 T2 (conj HT Hle)) as Hv.
    pose proof (Rlog2_nonneg P HP) as Hl.
    set (v1 := 1 + 3.2 / R_sqrt.sqrt (Rmax 1 T1)) in *.
    set (v2 := 1 + 3.2 / R_sqrt.sqrt (Rmax 1 T2)) in *.
    replace (T1 * 2 / P * v1) with (T1 * v1 * (2 / P)) by (field; lra).
    replace (T2 * 2 / P * v2) with (T2 * v2 * (2 / P)) by (field; lra).
    assert (0 <= 2 / P) by (apply Rdiv_nonneg; lra).
    apply Rmult_le_compat_r; [lra | ].
    apply Rmult_le_compat_r; [lra | ].
    apply Rmult_le_compat_r; [lra | ].
    apply Rmult_le_compat_r; [lra | ].
    apply Rmult_le_compat_r; [lra | ]. assumption. }
  repeat split; apply leb_Fin; try lra.
  apply Rmax_lub.
  - eapply Rle_trans; [ | apply Rmax_l]. lra.
  - eapply Rle_trans; [ | apply Rmax_r]. lra.
Qed.

Lemma timings_monotone_in_tokenCount_witness :
  let t1 := calculateMoETimings (Fin 256) (Fin 16) (Fin 25) (Fin 25)
              (Fin 0.45) (Fin 0.1) in
  let t2 := calculateMoETimings (Fin 1048576) (Fin 16) (Fin 25) (Fin 25)
              (Fin 0.45) (Fin 0.1) in
  (dispatchMs t1 <=? dispatchMs t2)%js = true
  /\ (computeMs t1 <=? computeMs t2)%js = true
  /\ (sequentialTotalMs t1 <=? sequentialTotalMs t2)%js = true
  /\ (dboOverlappedMs t1 <=? dboOverlappedMs t2)%js = true.
Proof.
  apply (timings_monotone_in_tokenCount 256 1048576 16 25 25 0.45 0.1);
    [constructor | ]; lra.
Defined.

(** ** The DeepEP model *)

Lemma calculateCommTimeMs_ll_Fin (T P L bw : R) :
  0 < P -> 0 < bw ->
  DeepEPModel.calculateCommTimeMs (Fin T) (Fin P) "ll" (Fin L) (Fin bw)
  = Fin (2 * (0.55 * (L / 1000)
              + T * (2 * 6144 * 2) / P / (0.70 * bw * 1e9) * 1000)).
Proof.
  intros HP Hbw.
  unfold DeepEPModel.calculateCommTimeMs, DeepEPModel.getParameters,
    calculateBytesPerToken.
  cbn [String.eqb Ascii.eqb Bool.eqb DeepEPModel.latencyMs
       DeepEPModel.bandwidthGBps MOE_CONFIG.TOP_K_EXPERTS
       MOE_CONFIG.HIDDEN_DIMENSION MOE_CONFIG.BYTES_PER_ELEMENT mul add].
  rewrite (div_Fin L 1000) by lra.
  rewrite (div_Fin _ P) by lra.
  cbn [mul]. rewrite div_Fin by lra.
  reflexivity.
Qed.

Lemma calculateCommTimeMs_ht_Fin (T P L bw : R) :
  0 < P -> 0 < bw ->
  DeepEPModel.calculateCommTimeMs (Fin T) (Fin P) "ht" (Fin L) (Fin bw)
  = Fin (2 * (1.15 * (L / 1000)
              + T * (2 * 6144 * 2) / P / (1.35 * bw * 1e9) * 1000)).
Proof.
  intros HP Hbw.
  unfold DeepEPModel.calculateCommTimeMs, DeepEPModel.getParameters,
    calculateBytesPerToken.
  cbn [String.eqb Ascii.eqb Bool.eqb DeepEPModel.latencyMs
       DeepEPModel.bandwidthGBps MOE_CONFIG.TOP_K_EXPERTS
       MOE_CONFIG.HIDDEN_DIMENSION MOE_CONFIG.BYTES_PER_ELEMENT mul add].
  rewrite (div_Fin L 1000) by lra.
  rewrite (div_Fin _ P) by lra.
  cbn [mul]. rewrite div_Fin by lra.
  reflexivity.
Qed.





Lemma throughput_antitone (T x y : R) :
  0 < T -> 0 < x -> x <= y -> T / (y / 1000) <= T / (x / 1000).
Proof.
  intros HT Hx Hxy.
  unfold Rdiv at 1 3. apply Rmult_le_compat_l; [lra | ].
  apply Rinv_le_contravar; lra.
Qed.

Lemma metrics_pair (T comm c : R) :
  0 < T -> 0 < comm -> 0 <= c ->
  (max (Fin comm) (Fin c) <=? Fin comm + Fin c)%js = true
  /\ (Fin T / ((Fin comm + Fin c) / Fin 1000)
      <=? Fin T / (max (Fin comm) (Fin c) / Fin 1000))%js = true.
Proof.
  intros HT Hcomm Hc. cbn [max add].
  pose proof (Rmax_l comm c) as Hl.
  assert (Rmax comm c <= comm + c) as Hle by (apply Rmax_lub; lra).
  split; [apply leb_Fin; assumption | ].
  rewrite !(div_Fin _ 1000) by lra.
  rewrite !div_Fin by lra.
  apply leb_Fin. apply throughput_antitone; lra.
Qed.

(** X6: for valid parameters and a positive token count, in the metrics
    of both kernels the step time with DBO, [max(comm, compute)], is at
    most the step time without, [comm + compute], and the throughput with
    DBO is at least the throughput without. *)
Theorem metrics_dbo_never_worse (T P L bw cu s : R) :
  validParameters T P L bw cu s -> 0 < T ->
  let m := _updateCurveKPI
             (mkModelParameters (Fin T) (Fin P) (Fin L) (Fin bw) (Fin cu)
                (Fin s)) in
  (llTotalDBO m <=? llTotalNoDBO m)%js = true
  /\ (htTotalDBO m <=? htTotalNoDBO m)%js = true
  /\ (llTpsNoDBO m <=? llTpsDBO m)%js = true
  /\ (htTpsNoDBO m <=? htTpsDBO m)%js = true.
Proof.
  intros [_ HP HL Hbw Hcu Hs] HT m. subst m.
  unfold _updateCurveKPI, _updateMetrics.
  cbn [tokenCount epRanks latencyUs bandwidthGBps computeUsPerToken skew
       llTotalDBO htTotalDBO llTotalNoDBO htTotalNoDBO
       llTpsDBO htTpsDBO llTpsNoDBO htTpsNoDBO].
  rewrite calculateCommTimeMs_ll_Fin, calculateCommTimeMs_ht_Fin by lra.
  rewrite calculateComputeTimeMs_Fin by lra.
  pose proof (computeFormula_nonneg T P cu s) as Hc.
  assert (forall k, 0 < k ->
            0 < T * (2 * 6144 * 2) / P / (k * bw * 1e9) * 1000) as Htr.
  { intros k Hk.
    assert (0 < T * (2 * 6144 * 2) / P / (k * bw * 1e9)).
    { apply Rdiv_lt_0_compat; [apply Rdiv_lt_0_compat; lra | ].
      assert (0 < k * bw) by (apply Rmult_lt_0_compat; lra). lra. }
    lra. }
  pose proof (Htr 0.70) as Hll. pose proof (Htr 1.35) as Hht.
  set (ll := 2 * (0.55 * (L / 1000)
                  + T * (2 * 6144 * 2) / P / (0.70 * bw * 1e9) * 1000)).
  set (ht := 2 * (1.15 * (L / 1000)
                  + T * (2 * 6144 * 2) / P / (1.35 * bw * 1e9) * 1000)).
  assert (0 < ll) by (unfold ll; lra).
  assert (0 < ht) by (unfold ht; lra).
  destruct (metrics_pair T ll (computeFormula T P cu s)) as [A1 A2];
    try lra.
  destruct (metrics_pair T ht (computeFormula T P cu s)) as [B1 B2];
    try lra.
  repeat split; assumption.
Qed.

Lemma metrics_dbo_never_worse_witness :
  let m := _updateCurveKPI
             (mkModelParameters (Fin 256) (Fin 16) (Fin 25) (Fin 25)
                (Fin 0.45) (Fin 0.1)) in
  (llTotalDBO m <=? llTotalNoDBO m)%js = true
  /\ (htTotalDBO m <=? htTotalNoDBO m)%js = true
  /\ (llTpsNoDBO m <=? llTpsDBO m)%js = true
  /\ (htTpsNoDBO m <=? htTpsDBO m)%js = true.
Proof.
  apply (metrics_dbo_never_worse 256 16 25 25 0.45 0.1);
    [constructor | ]; lra.
Defined.

(** ** More on the crossover scan *)

Lemma crossoverTokens_pair (p1 p2 : CurvePoint) (rest : list CurvePoint) :
  crossoverTokens (p1 :: p2 :: rest)
  = if ((llTime p1 - htTime p1) <? Fin 0)%js
       && ((llTime p2 - htTime p2) >=? Fin 0)%js
    then Some (exp (log (tokens p1)
                    + abs (llTime p1 - htTime p1)
                      / (abs (llTime p1 - htTime p1)
                         + abs (llTime p2 - htTime p2))
                      * (log (tokens p2) - log (tokens p1)))%js)
    else crossoverTokens (p2 :: rest).
Proof. reflexivity. Qed.

Lemma cheaper_not_flipped (l h : num) :
  (l <? h)%js = true -> ((l - h) >=? Fin 0)%js = false.
Proof.
  destruct l as [a | | | ], h as [b | | | ]; cbn; try discriminate;
    try reflexivity.
  intros H. destruct (Rlt_dec a b) as [Hab | ]; [ | discriminate].
  destruct (Rle_dec 0 (a + - b)); [lra | reflexivity].
Qed.

Lemma dearer_not_negative (l h : num) :
  (h <=? l)%js = true -> ((l - h) <? Fin 0)%js = false.
Proof.
  destruct l as [a | | | ], h as [b | | | ]; cbn; try discriminate;
    try reflexivity.
  intros H. destruct (Rle_dec b a) as [Hab | ]; [ | discriminate].
  destruct (Rlt_dec (a + - b) 0); [lra | reflexivity].
Qed.

(** X7: when LL is strictly cheaper than HT at every sample point, or HT
    is at least as cheap as LL at every sample point, the scan reports no
    crossover. *)
Theorem crossoverTokens_dominated (points : list CurvePoint) :
  Forall (fun p => (llTime p <? htTime p)%js = true) points
  \/ Forall (fun p => (htTime p <=? llTime p)%js = true) points ->
  crossoverTokens points = None.
Proof.
  intros [H | H].
  - induction H as [ | p1 rest Hp1 Hrest IH]; [reflexivity | ].
    destruct rest as [ | p2 rest']; [reflexivity | ].
    rewrite crossoverTokens_pair.
    inversion Hrest as [ | ? ? Hp2 _]; subst.
    rewrite (cheaper_not_flipped _ _ Hp2), andb_false_r. exact IH.
  - induction H as [ | p1 rest Hp1 Hrest IH]; [reflexivity | ].
    destruct rest as [ | p2 rest']; [reflexivity | ].
    rewrite crossoverTokens_pair.
    rewrite (dearer_not_negative _ _ Hp1). exact IH.
Qed.

Lemma crossoverTokens_dominated_witness :
  crossoverTokens
    [ mkCurvePoint (Fin 1) (Fin 0.05) (Fin 0.1);
      mkCurvePoint (Fin 64) (Fin 0.06) (Fin 0.1);
      mkCurvePoint (Fin 4096) (Fin 0.09) (Fin 0.1) ] = None.
Proof.
  apply crossoverTokens_dominated. left.
  repeat constructor; apply ltb_Fin; cbn; lra.
Defined.

Lemma log_Fin (a : R) : 0 < a -> log (Fin a) = Fin (ln a).
Proof.
  intros Ha. unfold log.
  destruct (Rlt_dec a 0) as [E | _]; [lra | ].
  destruct (Req_dec_T a 0) as [E | _]; [lra | reflexivity].
Qed.

Lemma ln_monotone (x y : R) : 0 < x -> x <= y -> ln x <= ln y.
Proof.
  intros Hx [Hlt | ->]; [ | lra].
  left. apply ln_increasing; assumption.
Qed.

Lemma exp_monotone (x y : R) :
  x <= y -> Rtrigo_def.exp x <= Rtrigo_def.exp y.
Proof.
  intros [Hlt | ->]; [ | lra].
  left. apply exp_increasing; assumption.
Qed.

(** The interpolated value lies between the two token counts. *)
Lemma interpolation_between (t1 t2 d1 d2 : R) :
  0 < t1 -> 0 < t2 -> d1 < 0 -> 0 <= d2 ->
  let r := Rtrigo_def.exp
             (ln t1 + Rabs d1 / (Rabs d1 + Rabs d2) * (ln t2 + - ln t1)) in
  Rmin t1 t2 <= r <= Rmax t1 t2.
Proof.
  intros H1 H2 Hd1 Hd2 r. subst r.
  rewrite (Rabs_left d1) by assumption.
  rewrite (Rabs_right d2) by lra.
  set (tau := - d1 / (- d1 + d2)).
  assert (0 <= tau <= 1) as Htau.
  { unfold tau. split.
    - apply Rdiv_nonneg; lra.
    - apply Rmult_le_reg_r with (- d1 + d2); [lra | ].
      unfold Rdiv. rewrite Rmult_assoc, Rinv_l by lra. lra. }
  set (y := ln t1 + tau * (ln t2 + - ln t1)).
  assert (forall t, 0 < t -> ln t <= y -> t <= Rtrigo_def.exp y) as Hlow.
  { intros t Ht Hy. rewrite <- (exp_ln t Ht) at 1.
    apply exp_monotone. assumption. }
  assert (forall t, 0 < t -> y <= ln t -> Rtrigo_def.exp y <= t) as Hup.
  { intros t Ht Hy. rewrite <- (exp_ln t Ht) at 1.
    apply exp_monotone. assumption. }
  destruct (Rle_dec t1 t2) as [Hle | Hgt].
  - pose proof (ln_monotone t1 t2 H1 Hle) as Hln.
    rewrite Rmin_left, Rmax_right by assumption.
    split; [apply Hlow | apply Hup]; try assumption; unfold y; nra.
  - assert (t2 <= t1) as Hle by lra.
    pose proof (ln_monotone t2 t1 H2 Hle) as Hln.
    rewrite Rmin_right, Rmax_left by assumption.
    split; [apply Hlow | apply Hup]; try assumption; unfold y; nra.
Qed.

(** X8: on finite samples with positive token counts, a reported
    crossover comes from the first adjacent pair of samples at which LL is
    strictly cheaper on the left and not cheaper on the right, and it is a
    finite number between the token counts of that pair. *)
Theorem crossoverTokens_bracketed (points : list CurvePoint) (x : num) :
  Forall finiteSample points ->
  crossoverTokens points = Some x ->
  exists (before after : list CurvePoint) (t1 l1 h1 t2 l2 h2 r : R),
    points = before ++ mkCurvePoint (Fin t1) (Fin l1) (Fin h1)
                    :: mkCurvePoint (Fin t2) (Fin l2) (Fin h2) :: after
    /\ crossoverTokens
         (before ++ [mkCurvePoint (Fin t1) (Fin l1) (Fin h1)]) = None
    /\ l1 < h1 /\ h2 <= l2
    /\ x = Fin r /\ Rmin t1 t2 <= r <= Rmax t1 t2.
Proof.
  intros Hfin. induction Hfin as [ | p1 rest Hp1 Hrest IH];
    [discriminate | ].
  destruct rest as [ | p2 rest']; [discriminate | ].
  rewrite crossoverTokens_pair.
  destruct (((llTime p1 - htTime p1) <? Fin 0)%js
            && ((llTime p2 - htTime p2) >=? Fin 0)%js) eqn:Hflip.
  - intros Hx. injection Hx as Hx.
    destruct Hp1 as (t1 & l1 & h1 & -> & Ht1).
    inversion Hrest as [ | ? ? Hp2 _]; subst.
    destruct Hp2 as (t2 & l2 & h2 & -> & Ht2).
    cbn [llTime htTime tokens] in *.
    apply andb_true_iff in Hflip as [Hd1 Hd2].
    unfold sub in Hd1, Hd2. cbn [neg add] in Hd1, Hd2.
    apply ltb_Fin in Hd1. unfold geb in Hd2. apply leb_Fin in Hd2.
    exists [], rest', t1, l1, h1, t2, l2, h2.
    eexists. split; [reflexivity | ]. split; [reflexivity | ].
    split; [lra | ]. split; [lra | ].
    rewrite !log_Fin by assumption.
    unfold sub. cbn [neg add abs].
    assert (Rabs (l1 + - h1) + Rabs (l2 + - h2) <> 0) as Hden.
    { rewrite (Rabs_left (l1 + - h1)) by lra.
      pose proof (Rabs_pos (l2 + - h2)). lra. }
    rewrite div_Fin by assumption. cbn [mul add exp].
    split; [reflexivity | ].
    apply interpolation_between; assumption.
  - intros Hx. destruct (IH Hx)
      as (before & after & t1 & l1 & h1 & t2 & l2 & h2 & r
          & Heq & Hnone & Hl & Hh & Hxr & Hr).
    exists (p1 :: before), after, t1, l1, h1, t2, l2, h2, r.
    split; [cbn; rewrite Heq; reflexivity | ].
    split; [ | repeat split; tauto].
    destruct before as [ | q before'].
    + cbn in Heq. injection Heq as -> _.
      cbn [app]. rewrite crossoverTokens_pair, Hflip. reflexivity.
    + cbn in Heq. injection Heq as -> _.
      cbn [app]. rewrite crossoverTokens_pair, Hflip. exact Hnone.
Qed.

Lemma crossoverTokens_bracketed_witness :
  let p1 := mkCurvePoint (Fin 256) (Fin 0.05) (Fin 0.1) in
  let p2 := mkCurvePoint (Fin 512) (Fin 0.5) (Fin 0.4) in
  let x := exp (log (tokens p1)
                + abs (llTime p1 - htTime p1)
                  / (abs (llTime p1 - htTime p1)
                     + abs (llTime p2 - htTime p2))
                  * (log (tokens p2) - log (tokens p1)))%js in
  exists (before after : list CurvePoint) (t1 l1 h1 t2 l2 h2 r : R),
    [p1; p2] = before ++ mkCurvePoint (Fin t1) (Fin l1) (Fin h1)
                      :: mkCurvePoint (Fin t2) (Fin l2) (Fin h2) :: after
    /\ crossoverTokens
         (before ++ [mkCurvePoint (Fin t1) (Fin l1) (Fin h1)]) = None
    /\ l1 < h1 /\ h2 <= l2
    /\ x = Fin r /\ Rmin t1 t2 <= r <= Rmax t1 t2.
Proof.
  intros p1 p2 x.
  apply (crossoverTokens_bracketed [p1; p2] x).
  - repeat constructor; do 3 eexists; (split; [reflexivity | lra]).
  - rewrite crossoverTokens_pair.
    assert (((llTime p1 - htTime p1) <? Fin 0)%js = true) as E1
      by (apply ltb_Fin; lra).
    assert (((llTime p2 - htTime p2) >=? Fin 0)%js = true) as E2
      by (apply leb_Fin; lra).
    rewrite E1, E2. reflexivity.
Defined.

(** ** More on the schedule *)

Lemma _buildSchedule_sequential (t : Timings) (split : bool) (D C B : R) :
  dispatchMs t = Fin D -> computeMs t = Fin C -> combineMs t = Fin B ->
  let d := halved split D in
  let c := halved split C in
  let b := halved split B in
  _buildSchedule t (mkOptions false split)
  = {| batchA := [ mkBlock dispatch (Fin 0) (Fin d);
                   mkBlock compute (Fin (0 + d)) (Fin c);
                   mkBlock combine (Fin (0 + d + c)) (Fin b) ];
       batchB := [] |}.
Proof.
  intros HD HC HB. unfold _buildSchedule, halved.
  cbn [enableDBO enableSplit negb]. rewrite HD, HC, HB.
  destruct split; [rewrite !div_Fin by lra | ]; reflexivity.
Qed.

(** X9: for valid parameters, the sequential schedule built without
    split from the timings of the cost model chains its three blocks (each
    starts when the previous one ends) and its total duration is the
    model's [sequentialTotalMs]. *)
Theorem sequential_schedule_total (T P L bw cu s : R) :
  validParameters T P L bw cu s ->
  let t := calculateMoETimings (Fin T) (Fin P) (Fin L) (Fin bw)
             (Fin cu) (Fin s) in
  let schedule := _buildSchedule t (mkOptions false false) in
  exists (dispatchA computeA combineA : Block) (total : num),
    schedule = {| batchA := [dispatchA; computeA; combineA]; batchB := [] |}
    /\ start dispatchA = Fin 0
    /\ (start computeA === blockEnd dispatchA)%js = true
    /\ (start combineA === blockEnd computeA)%js = true
    /\ _calculateTotalDuration schedule false = Returns total
    /\ (total === sequentialTotalMs t)%js = true.
Proof.
  intros [HT HP HL Hbw Hcu Hs] t schedule. subst schedule t.
  rewrite calculateMoETimings_Fin by lra. cbv zeta.
  erewrite _buildSchedule_sequential by reflexivity. cbv zeta.
  unfold halved.
  do 4 eexists. split; [reflexivity | ].
  unfold blockEnd. cbn [start duration add sequentialTotalMs].
  split; [reflexivity | ].
  split; [apply eqb_Fin | ]. split; [apply eqb_Fin | ].
  split; [reflexivity | ].
  unfold blockEnd. cbn [add start duration].
  match goal with
  | |- (Fin ?a === Fin ?b)%js = true =>
      replace a with b by lra; apply eqb_Fin
  end.
Qed.

Lemma sequential_schedule_total_witness :
  let t := calculateMoETimings (Fin 1024) (Fin 16) (Fin 25) (Fin 25)
             (Fin 0.45) (Fin 0.1) in
  let schedule := _buildSchedule t (mkOptions false false) in
  exists (dispatchA computeA combineA : Block) (total : num),
    schedule = {| batchA := [dispatchA; computeA; combineA]; batchB := [] |}
    /\ start dispatchA = Fin 0
    /\ (start computeA === blockEnd dispatchA)%js = true
    /\ (start combineA === blockEnd computeA)%js = true
    /\ _calculateTotalDuration schedule false = Returns total
    /\ (total === sequentialTotalMs t)%js = true.
Proof.
  apply (sequential_schedule_total 1024 16 25 25 0.45 0.1).
  constructor; lra.
Defined.

Ltac case_Rmax := unfold Rmax; repeat destruct (Rle_dec _ _); try lra.

Lemma overlapped_total_Fin (t : Timings) (split : bool) (D C B : R) :
  0 <= D -> 0 <= C -> 0 <= B ->
  dispatchMs t = Fin D -> computeMs t = Fin C -> combineMs t = Fin B ->
  let d := halved split D in
  let c := halved split C in
  let b := halved split B in
  _calculateTotalDuration (_buildSchedule t (mkOptions true split)) true
  = Returns (Fin (d + Rmax c d + Rmax c b + b)).
Proof.
  intros HD HC HB ED EC EB d c b.
  rewrite (_buildSchedule_overlapped t split D C B ED EC EB).
  cbv zeta. fold d c b.
  pose proof (halved_nonneg split D HD) as Hd.
  pose proof (halved_nonneg split C HC) as Hc.
  pose proof (halved_nonneg split B HB) as Hb.
  fold d in Hd. fold c in Hc. fold b in Hb. clearbody d c b.
  unfold _calculateTotalDuration, lastElement, blockEnd.
  cbn [negb batchA batchB length Nat.sub nth_error start duration add max].
  do 2 f_equal. case_Rmax.
Qed.

(** X10: for nonnegative finite durations [d], [c], [b] (the input times,
    halved under split) the total duration of the overlapped schedule is
    [d + max(c, d) + max(c, b) + b]; it is at least the duration [d + c + b]
    of one batch run alone and at most twice that. *)
Theorem overlapped_total_closed_form
    (t : Timings) (split : bool) (D C B : R) :
  0 <= D -> 0 <= C -> 0 <= B ->
  dispatchMs t = Fin D -> computeMs t = Fin C -> combineMs t = Fin B ->
  let d := halved split D in
  let c := halved split C in
  let b := halved split B in
  let total := d + Rmax c d + Rmax c b + b in
  _calculateTotalDuration (_buildSchedule t (mkOptions true split)) true
  = Returns (Fin total)
  /\ d + c + b <= total <= 2 * (d + c + b).
Proof.
  intros HD HC HB ED EC EB d c b total.
  split; [apply overlapped_total_Fin; assumption | ].
  pose proof (halved_nonneg split D HD) as Hd.
  pose proof (halved_nonneg split C HC) as Hc.
  pose proof (halved_nonneg split B HB) as Hb.
  subst total. fold d in Hd. fold c in Hc. fold b in Hb. clearbody d c b.
  split; case_Rmax.
Qed.

Lemma overlapped_total_closed_form_witness :
  let t := mkTimings (Fin 3) (Fin 10) (Fin 3) (Fin 16) (Fin 10) in
  let total := 3 + Rmax 10 3 + Rmax 10 3 + 3 in
  _calculateTotalDuration (_buildSchedule t (mkOptions true false)) true
  = Returns (Fin total)
  /\ 3 + 10 + 3 <= total <= 2 * (3 + 10 + 3).
Proof.
  apply (overlapped_total_closed_form
           (mkTimings (Fin 3) (Fin 10) (Fin 3) (Fin 16) (Fin 10))
           false 3 10 3); try lra; reflexivity.
Defined.

(** X11: for valid parameters, the two-batch overlapped schedule built
    without split from the timings of the cost model lasts at least the
    steady-state figure [dboOverlappedMs] plus two dispatch times, and at
    least [sequentialTotalMs]. *)
Theorem overlapped_total_vs_model (T P L bw cu s : R) :
  validParameters T P L bw cu s ->
  let t := calculateMoETimings (Fin T) (Fin P) (Fin L) (Fin bw)
             (Fin cu) (Fin s) in
  exists total : num,
    _calculateTotalDuration (_buildSchedule t (mkOptions true false)) true
    = Returns total
    /\ (dboOverlappedMs t + Fin 2 * dispatchMs t <=? total)%js = true
    /\ (sequentialTotalMs t <=? total)%js = true.
Proof.
  intros [HT HP HL Hbw Hcu Hs] t. subst t.
  pose proof (dispatchFormula_nonneg T P L bw) as Hd.
  pose proof (computeFormula_nonneg T P cu s) as Hc.
  rewrite calculateMoETimings_Fin by lra. cbv zeta.
  eexists. split.
  - apply (overlapped_total_Fin _ false (dispatchFormula T P L bw)
             (computeFormula T P cu s) (dispatchFormula T P L bw));
      try reflexivity; lra.
  - unfold halved.
    cbn [dboOverlappedMs dispatchMs sequentialTotalMs mul add].
    split; apply leb_Fin; case_Rmax.
Qed.

Lemma overlapped_total_vs_model_witness :
  let t := calculateMoETimings (Fin 1024) (Fin 16) (Fin 25) (Fin 25)
             (Fin 0.45) (Fin 0.1) in
  exists total : num,
    _calculateTotalDuration (_buildSchedule t (mkOptions true false)) true
    = Returns total
    /\ (dboOverlappedMs t + Fin 2 * dispatchMs t <=? total)%js = true
    /\ (sequentialTotalMs t <=? total)%js = true.
Proof.
  apply (overlapped_total_vs_model 1024 16 25 25 0.45 0.1).
  constructor; lra.
Defined.

Lemma sequential_total_Fin (t : Timings) (split : bool) (D C B : R) :
  dispatchMs t = Fin D -> computeMs t = Fin C -> combineMs t = Fin B ->
  _calculateTotalDuration (_buildSchedule t (mkOptions false split)) false
  = Returns (Fin (0 + halved split D + halved split C + halved split B)).
Proof.
  intros ED EC EB.
  rewrite (_buildSchedule_sequential t split D C B ED EC EB).
  reflexivity.
Qed.

Lemma overlapped_total_any_sign (t : Timings) (split : bool) (D C B : R) :
  dispatchMs t = Fin D -> computeMs t = Fin C -> combineMs t = Fin B ->
  let d := halved split D in
  let c := halved split C in
  let b := halved split B in
  _calculateTotalDuration (_buildSchedule t (mkOptions true split)) true
  = Returns
      (Fin (Rmax (Rmax (0 + d + c) (0 + d + d) + b)
              (Rmax (Rmax (0 + d + d) (0 + d + c) + c)
                 (Rmax (0 + d + c) (0 + d + d) + b) + b))).
Proof.
  intros ED EC EB d c b.
  rewrite (_buildSchedule_overlapped t split D C B ED EC EB).
  reflexivity.
Qed.

(** X12: for finite durations of either sign and under both policies,
    the total duration of the schedule built with split is half the total
    duration of the schedule built without. *)
Theorem split_halves_total (t : Timings) (dbo : bool) (D C B : R) :
  dispatchMs t = Fin D -> computeMs t = Fin C -> combineMs t = Fin B ->
  exists total : R,
    _calculateTotalDuration (_buildSchedule t (mkOptions dbo false)) dbo
    = Returns (Fin total)
    /\ _calculateTotalDuration (_buildSchedule t (mkOptions dbo true)) dbo
       = Returns (Fin (total / 2)).
Proof.
  intros ED EC EB. destruct dbo.
  - rewrite !(overlapped_total_any_sign t _ D C B ED EC EB).
    cbv zeta. unfold halved. eexists. split; [reflexivity | ].
    do 2 f_equal. case_Rmax.
  - rewrite !(sequential_total_Fin t _ D C B ED EC EB).
    unfold halved. eexists. split; [reflexivity | ].
    do 2 f_equal. lra.
Qed.

Lemma split_halves_total_witness :
  let t := mkTimings (Fin 3) (Fin 10) (Fin 3) (Fin 16) (Fin 10) in
  exists total : R,
    _calculateTotalDuration (_buildSchedule t (mkOptions true false)) true
    = Returns (Fin total)
    /\ _calculateTotalDuration (_buildSchedule t (mkOptions true true)) true
       = Returns (Fin (total / 2)).
Proof.
  apply (split_halves_total
           (mkTimings (Fin 3) (Fin 10) (Fin 3) (Fin 16) (Fin 10))
           true 3 10 3); reflexivity.
Defined.

(** X13: [_calculateTotalDuration] returns a number on every schedule
    that [_buildSchedule] builds when it is given the same [enableDBO]
    flag; on a schedule built sequentially it throws a [TypeError] when
    asked for the DBO total (batch B is empty), and on a schedule built
    with DBO the sequential total is the end of batch A's combine block
    alone. *)
Theorem _calculateTotalDuration_flags (t : Timings) (split : bool) :
  (forall dbo : bool, exists total : num,
      _calculateTotalDuration (_buildSchedule t (mkOptions dbo split)) dbo
      = Returns total)
  /\ _calculateTotalDuration (_buildSchedule t (mkOptions false split)) true
     = Throws TypeError
  /\ (exists combineA : Block,
        nth_error (batchA (_buildSchedule t (mkOptions true split))) 2
        = Some combineA
        /\ _calculateTotalDuration
             (_buildSchedule t (mkOptions true split)) false
           = Returns (blockEnd combineA)).
Proof.
  split; [ | split].
  - intros [ | ]; eexists; reflexivity.
  - reflexivity.
  - eexists. split; reflexivity.
Qed.

(** ** The playhead *)

Lemma rem_Fin_range (a b : R) :
  0 <= a -> 0 < b ->
  exists r : R, (Fin a %% Fin b)%js = Fin r /\ 0 <= r < b.
Proof.
  intros Ha Hb. unfold rem.
  destruct (Req_dec_T b 0) as [E | _]; [lra | ].
  eexists. split; [reflexivity | ].
  assert (0 <= a / b) as Hq by (apply Rdiv_nonneg; lra).
  unfold Rtrunc. destruct (Rle_dec 0 (a / b)) as [_ | N]; [ | lra].
  destruct (base_Int_part (a / b)) as [Hlo Hhi].
  assert (a = a / b * b) as Hab by (field; lra).
  set (q := a / b) in *. set (n := IZR (Int_part q)) in *.
  clearbody q n. subst a. nra.
Qed.

Lemma cycleDuration_Fin (t : Timings) (split dbo : bool) (D C B : R) :
  dispatchMs t = Fin D -> computeMs t = Fin C -> combineMs t = Fin B ->
  let d := halved split D in
  let c := halved split C in
  let b := halved split B in
  cycleDuration t split dbo
  = Fin (if dbo then (d + c + b) + 2 * Rmax (d + b) c + (d + b)
         else (d + c + b) * 2).
Proof.
  intros ED EC EB. unfold cycleDuration, halved. rewrite ED, EC, EB.
  destruct split, dbo; rewrite ?div_Fin by lra; reflexivity.
Qed.

(** X14: for nonnegative finite durations and either value of the two
    flags, the cycle that the playhead of [animationTick] runs through is
    at least as long as the total duration of the schedule drawn with the
    same flags. *)
Theorem cycleDuration_covers_schedule
    (t : Timings) (split dbo : bool) (D C B : R) :
  0 <= D -> 0 <= C -> 0 <= B ->
  dispatchMs t = Fin D -> computeMs t = Fin C -> combineMs t = Fin B ->
  exists total cycle : R,
    _calculateTotalDuration (_buildSchedule t (mkOptions dbo split)) dbo
    = Returns (Fin total)
    /\ cycleDuration t split dbo = Fin cycle
    /\ total <= cycle.
Proof.
  intros HD HC HB ED EC EB.
  rewrite (cycleDuration_Fin t split dbo D C B ED EC EB). cbv zeta.
  pose proof (halved_nonneg split D HD) as Hd.
  pose proof (halved_nonneg split C HC) as Hc.
  pose proof (halved_nonneg split B HB) as Hb.
  destruct dbo.
  - rewrite (overlapped_total_Fin t split D C B HD HC HB ED EC EB).
    cbv zeta. do 2 eexists. split; [reflexivity | ].
    split; [reflexivity | ]. case_Rmax.
  - rewrite (sequential_total_Fin t split D C B ED EC EB).
    do 2 eexists. split; [reflexivity | ].
    split; [reflexivity | ]. lra.
Qed.

Lemma cycleDuration_covers_schedule_witness :
  let t := mkTimings (Fin 3) (Fin 10) (Fin 3) (Fin 16) (Fin 10) in
  exists total cycle : R,
    _calculateTotalDuration (_buildSchedule t (mkOptions true true)) true
    = Returns (Fin total)
    /\ cycleDuration t true true = Fin cycle
    /\ total <= cycle.
Proof.
  apply (cycleDuration_covers_schedule
           (mkTimings (Fin 3) (Fin 10) (Fin 3) (Fin 16) (Fin 10))
           true true 3 10 3); try lra; reflexivity.
Defined.

(** X15: for nonnegative finite durations and a nonnegative finite elapsed
    time, the playhead time is a number in [[0, cycleDuration)] when some
    duration is positive; when the three durations are zero the cycle is
    zero and the playhead time is [NaN]. *)
Theorem currentTimeMs_range
    (t : Timings) (split dbo : bool) (D C B elapsed : R) :
  0 <= D -> 0 <= C -> 0 <= B -> 0 <= elapsed ->
  dispatchMs t = Fin D -> computeMs t = Fin C -> combineMs t = Fin B ->
  (0 < D + C + B ->
   exists now cycle : R,
     cycleDuration t split dbo = Fin cycle
     /\ currentTimeMs (Fin elapsed) t split dbo = Fin now
     /\ 0 <= now < cycle)
  /\ (D + C + B = 0 ->
      currentTimeMs (Fin elapsed) t split dbo = NaN).
Proof.
  intros HD HC HB He ED EC EB.
  unfold currentTimeMs.
  rewrite (cycleDuration_Fin t split dbo D C B ED EC EB). cbv zeta.
  cbn [mul].
  set (cycle := if dbo then _ else _).
  split.
  - intros Hpos.
    assert (0 < cycle) as Hcycle.
    { unfold cycle, halved. destruct dbo, split; case_Rmax. }
    destruct (rem_Fin_range (elapsed * 1000) cycle) as (r & Hr & Hrange);
      [lra | assumption | ].
    exists r, cycle. repeat split; try assumption; lra.
  - intros Hzero.
    assert (cycle = 0) as ->.
    { unfold cycle, halved. destruct dbo, split; case_Rmax. }
    unfold rem. destruct (Req_dec_T 0 0) as [_ | N];
      [reflexivity | contradiction].
Qed.

Lemma currentTimeMs_range_witness :
  let t := mkTimings (Fin 3) (Fin 10) (Fin 3) (Fin 16) (Fin 10) in
  (0 < 3 + 10 + 3 ->
   exists now cycle : R,
     cycleDuration t false true = Fin cycle
     /\ currentTimeMs (Fin 2.5) t false true = Fin now
     /\ 0 <= now < cycle)
  /\ (3 + 10 + 3 = 0 ->
      currentTimeMs (Fin 2.5) t false true = NaN).
Proof.
  apply (currentTimeMs_range
           (mkTimings (Fin 3) (Fin 10) (Fin 3) (Fin 16) (Fin 10))
           false true 3 10 3 2.5); try lra; reflexivity.
Defined.

(** ** The animation clock *)




(** ** Pruning ticks *)

Section PruneTicks.

Context {A : Type}.

Lemma filterIndex_subsequence (keep : nat -> bool) (i : nat)
    (values : list A) :
  subsequence (filterIndex keep i values) values.
Proof.
  revert i. induction values as [ | v rest IH]; intros i; cbn.
  - constructor.
  - destruct (keep i); constructor; apply IH.
Qed.

Lemma ceil_step (i s : nat) :
  (0 < s)%nat ->
  ((S i + s - 1) / s
   = (i + s - 1) / s + (if (i mod s =? 0)%nat then 1 else 0))%nat.
Proof.
  intros Hs.
  pose proof (Nat.div_mod_eq i s) as Hi.
  pose proof (Nat.mod_upper_bound i s ltac:(lia)) as Hr.
  set (k := (i / s)%nat) in *. set (r := (i mod s)%nat) in *.
  destruct (Nat.eqb_spec r 0) as [E | E].
  - rewrite <- (Nat.div_unique (S i + s - 1) s (S k) 0) by nia.
    rewrite <- (Nat.div_unique (i + s - 1) s k (s - 1)) by nia.
    lia.
  - rewrite <- (Nat.div_unique (S i + s - 1) s (S k) r) by nia.
    rewrite <- (Nat.div_unique (i + s - 1) s (S k) (r - 1)) by nia.
    lia.
Qed.

(** The number of multiples of [s] among the indices [i, ..., i + n - 1]. *)
Lemma filterIndex_multiples_length (s i : nat) (values : list A) :
  (0 < s)%nat ->
  (length (filterIndex (fun j => (j mod s =? 0)%nat) i values)
   = (i + length values + s - 1) / s - (i + s - 1) / s)%nat.
Proof.
  intros Hs. revert i.
  induction values as [ | v rest IH]; intros i.
  - cbn [filterIndex length]. rewrite Nat.add_0_r. lia.
  - cbn [filterIndex length].
    pose proof (ceil_step i s Hs) as Hstep.
    assert ((S i + s - 1) / s <= (S i + length rest + s - 1) / s)%nat
      as Hmono by (apply Nat.Div0.div_le_mono; lia).
    replace (i + S (length rest) + s - 1)%nat
      with (S i + length rest + s - 1)%nat by lia.
    destruct (i mod s =? 0)%nat; cbn [length]; rewrite IH; lia.
Qed.

(** X17: for [maxTicks >= 1], [pruneTicks] returns at most [maxTicks]
    values. *)
Theorem pruneTicks_length (values : list A) (maxTicks : nat) :
  (1 <= maxTicks)%nat ->
  (length (pruneTicks values maxTicks) <= maxTicks)%nat.
Proof.
  intros Hm. unfold pruneTicks.
  destruct (Nat.leb_spec (length values) maxTicks) as [Hle | Hgt];
    [assumption | ].
  destruct maxTicks as [ | m']; [lia | ].
  set (m := S m') in *. set (n := length values) in *.
  cbv zeta. unfold ceilDiv.
  set (s := ((n + m - 1) / m)%nat).
  assert (n <= m * s)%nat as Hcover.
  { pose proof (Nat.div_mod_eq (n + m - 1) m) as Hdm.
    pose proof (Nat.mod_upper_bound (n + m - 1) m ltac:(lia)) as Hr.
    fold s in Hdm. lia. }
  assert (0 < s)%nat as Hs by nia.
  rewrite filterIndex_multiples_length by assumption.
  fold n. cbn [Nat.add].
  rewrite (Nat.div_small (s - 1) s) by lia.
  rewrite Nat.sub_0_r.
  assert ((n + s - 1) / s < S m)%nat; [ | lia].
  apply Nat.Div0.div_lt_upper_bound. nia.
Qed.

(** X18: [pruneTicks] returns its argument when it has at most [maxTicks]
    values; in every case the result is a subsequence of the argument, in
    the same order, and it starts with the first value of the argument. *)
Theorem pruneTicks_subsequence (values : list A) (maxTicks : nat) :
  subsequence (pruneTicks values maxTicks) values
  /\ ((length values <= maxTicks)%nat -> pruneTicks values maxTicks = values)
  /\ (forall (v : A) (rest : list A),
        values = v :: rest ->
        exists kept : list A, pruneTicks values maxTicks = v :: kept).
Proof.
  unfold pruneTicks. split; [ | split].
  - destruct (length values <=? maxTicks)%nat.
    + clear. induction values; constructor; assumption.
    + destruct maxTicks; apply filterIndex_subsequence.
  - intros Hle. apply Nat.leb_le in Hle. rewrite Hle. reflexivity.
  - intros v rest ->.
    destruct (length (v :: rest) <=? maxTicks)%nat; [eexists; reflexivity | ].
    destruct maxTicks; cbv zeta; cbn [filterIndex Nat.eqb].
    + eexists; reflexivity.
    + rewrite Nat.Div0.mod_0_l. cbn [Nat.eqb]. eexists; reflexivity.
Qed.

End PruneTicks.

Lemma pruneTicks_length_witness :
  let values := [0.005; 0.01; 0.02; 0.05; 0.1; 0.2; 0.5; 1; 2; 5] in
  (length (pruneTicks values 4) <= 4)%nat.
Proof.
  intros values. apply (pruneTicks_length values 4).
  apply le_S, le_S, le_S, le_n.
Defined.

Lemma pruneTicks_subsequence_witness :
  let values := [0.005; 0.01; 0.02; 0.05; 0.1; 0.2; 0.5; 1; 2; 5] in
  subsequence (pruneTicks values 4) values
  /\ ((length values <= 4)%nat -> pruneTicks values 4 = values)
  /\ (forall (v : R) (rest : list R),
        values = v :: rest ->
        exists kept : list R, pruneTicks values 4 = v :: kept).
Proof.
  exact (pruneTicks_subsequence
           [0.005; 0.01; 0.02; 0.05; 0.1; 0.2; 0.5; 1; 2; 5] 4).
Defined.

(** ** Reading the controls *)

Lemma round_IZR (z : Z) : round (Fin (IZR z)) = Fin (IZR z).
Proof.
  unfold round. do 2 f_equal. symmetry. apply Int_part_spec. lra.
Qed.

(** X19: for a slider exponent that is a natural number [n],
    [getTokenCount] returns exactly [2^n * 8]: the rounding changes
    nothing.  Without the tokens slider it returns 256. *)
Theorem getTokenCount_power (el : Sliders) :
  (forall n : nat,
      tokensSlider el = Some (Fin (INR n)) ->
      ControlState.getTokenCount el = Fin (2 ^ n * 8))
  /\ (tokensSlider el = None -> ControlState.getTokenCount el = Fin 256).
Proof.
  unfold ControlState.getTokenCount. split.
  - intros n ->. cbn [pow2 mul].
    rewrite Rpower_pow by lra.
    replace (2 ^ n * 8) with (IZR (2 ^ Z.of_nat n * 8)).
    + apply round_IZR.
    + rewrite mult_IZR, <- pow_IZR. reflexivity.
  - intros ->. reflexivity.
Qed.

Lemma getTokenCount_power_witness :
  let el := mkSliders (Some (Fin (INR 10))) (Some (Fin 16)) (Some (Fin 25))
              (Some (Fin 25)) (Some (Fin 0.45)) (Some (Fin 0.1)) in
  (forall n : nat,
      tokensSlider el = Some (Fin (INR n)) ->
      ControlState.getTokenCount el = Fin (2 ^ n * 8))
  /\ (tokensSlider el = None -> ControlState.getTokenCount el = Fin 256).
Proof.
  exact (getTokenCount_power
           (mkSliders (Some (Fin (INR 10))) (Some (Fin 16)) (Some (Fin 25))
              (Some (Fin 25)) (Some (Fin 0.45)) (Some (Fin 0.1)))).
Defined.




(** ** A crossover is found when the curves swap *)

Lemma finite_flip_cases (l h : R) :
  (((Fin l - Fin h) <? Fin 0)%js = true /\ l < h)
  \/ (((Fin l - Fin h) >=? Fin 0)%js = true /\ h <= l).
Proof.
  unfold sub, geb. cbn [neg add].
  destruct (Rlt_dec l h) as [Hlt | Hge].
  - left. split; [apply ltb_Fin; lra | assumption].
  - right. split; [apply leb_Fin; lra | lra].
Qed.

(** X21: on finite samples, when LL is strictly cheaper than HT at the
    first sample and HT is at least as cheap as LL at the last one, the
    scan reports a crossover. *)
Theorem crossoverTokens_found
    (first : CurvePoint) (middle : list CurvePoint) (final : CurvePoint) :
  Forall finiteSample (first :: middle ++ [final]) ->
  (llTime first <? htTime first)%js = true ->
  (htTime final <=? llTime final)%js = true ->
  exists x : num, crossoverTokens (first :: middle ++ [final]) = Some x.
Proof.
  revert first.
  induction middle as [ | m rest IH]; intros first Hfin Hfirst Hfinal.
  - cbn [app]. rewrite crossoverTokens_pair.
    inversion Hfin as [ | ? ? Hp1 Hrest]; subst.
    inversion Hrest as [ | ? ? Hp2 _]; subst.
    destruct Hp1 as (t1 & l1 & h1 & -> & _).
    destruct Hp2 as (t2 & l2 & h2 & -> & _).
    cbn [llTime htTime] in *.
    apply ltb_Fin in Hfirst. apply leb_Fin in Hfinal.
    destruct (finite_flip_cases l1 h1) as [[E1 _] | [_ N]]; [ | lra].
    destruct (finite_flip_cases l2 h2) as [[_ N] | [E2 _]]; [lra | ].
    rewrite E1, E2. eexists. reflexivity.
  - cbn [app]. rewrite crossoverTokens_pair.
    inversion Hfin as [ | ? ? Hp1 Hrest]; subst.
    pose proof Hrest as Hrest'.
    inversion Hrest as [ | ? ? Hp2 _]; subst.
    destruct Hp1 as (t1 & l1 & h1 & -> & _).
    destruct Hp2 as (t2 & l2 & h2 & -> & Ht2).
    cbn [llTime htTime] in *.
    apply ltb_Fin in Hfirst.
    destruct (finite_flip_cases l1 h1) as [[E1 _] | [_ N]]; [ | lra].
    rewrite E1. cbn [andb].
    destruct (finite_flip_cases l2 h2) as [[E2 Hlt] | [E2 _]].
    + assert (((Fin l2 - Fin h2) >=? Fin 0)%js = false) as ->.
      { apply cheaper_not_flipped. apply ltb_Fin. assumption. }
      apply (IH (mkCurvePoint (Fin t2) (Fin l2) (Fin h2)) Hrest').
      * apply ltb_Fin. assumption.
      * assumption.
    + rewrite E2. eexists. reflexivity.
Qed.

Lemma crossoverTokens_found_witness :
  exists x : num,
    crossoverTokens
      (mkCurvePoint (Fin 1) (Fin 0.05) (Fin 0.1)
       :: [mkCurvePoint (Fin 64) (Fin 0.08) (Fin 0.1)]
       ++ [mkCurvePoint (Fin 4096) (Fin 0.5) (Fin 0.4)]) = Some x.
Proof.
  apply (crossoverTokens_found
           (mkCurvePoint (Fin 1) (Fin 0.05) (Fin 0.1))
           [mkCurvePoint (Fin 64) (Fin 0.08) (Fin 0.1)]
           (mkCurvePoint (Fin 4096) (Fin 0.5) (Fin 0.4))).
  - repeat constructor; do 3 eexists; (split; [reflexivity | lra]).
  - apply ltb_Fin. cbn. lra.
  - apply leb_Fin. cbn. lra.
Defined.

(** ** The sampled DeepEP curves *)

Lemma boundedSample_weaken (M M' : R) (p : CurvePoint) :
  M <= M' -> boundedSample M p -> boundedSample M' p.
Proof.
  intros HM (t & l & h & -> & Ht & Hl & Hh).
  exists t, l, h. repeat split; lra.
Qed.

Section CurveData.

Variable params : ModelParameters.
Variables P L bw : R.
Hypothesis HP : 0 < P.
Hypothesis Hbw : 0 < bw.
Hypothesis params_epRanks : epRanks params = Fin P.
Hypothesis params_latencyUs : latencyUs params = Fin L.
Hypothesis params_bandwidthGBps : bandwidthGBps params = Fin bw.

Lemma curveDataStep_bounded (M : R) (acc : CurveData) (i : nat) :
  maxY acc = Fin M ->
  Forall (boundedSample M) (points acc) ->
  exists M' : R,
    M <= M'
    /\ maxY (curveDataStep params acc i) = Fin M'
    /\ Forall (boundedSample M') (points (curveDataStep params acc i))
    /\ length (points (curveDataStep params acc i))
       = S (length (points acc)).
Proof.
  intros HM Hacc. unfold curveDataStep.
  rewrite params_epRanks, params_latencyUs, params_bandwidthGBps.
  cbn [points maxY].
  unfold sub. cbn [neg add].
  rewrite (div_Fin (INR i)) by lra.
  cbn [mul add pow2 round max].
  rewrite calculateCommTimeMs_ll_Fin, calculateCommTimeMs_ht_Fin by lra.
  rewrite HM. cbn [max].
  match goal with
  | |- context [Fin (Rmax (Rmax M ?l) ?h)] =>
      set (lt := l); set (ht := h)
  end.
  match goal with
  | |- context [mkCurvePoint (Fin ?t) _ _] => set (tk := t)
  end.
  exists (Rmax (Rmax M lt) ht).
  assert (M <= Rmax (Rmax M lt) ht) as HMM.
  { eapply Rle_trans; [apply (Rmax_l M lt) | apply Rmax_l]. }
  split; [assumption | ]. split; [reflexivity | ]. split.
  - apply Forall_app. split.
    + eapply Forall_impl; [ | exact Hacc].
      intros p. apply boundedSample_weaken. assumption.
    + constructor; [ | constructor].
      exists tk, lt, ht. split; [reflexivity | ].
      split; [apply Rmax_l | ].
      split; split.
      * apply Rmax_l.
      * eapply Rle_trans; [apply (Rmax_r M lt) | apply Rmax_l].
      * apply Rmax_l.
      * apply Rmax_r.
  - rewrite length_app. cbn. lia.
Qed.

Lemma curveData_fold_bounded (indices : list nat) :
  forall (acc : CurveData) (M : R),
    maxY acc = Fin M ->
    Forall (boundedSample M) (points acc) ->
    exists M' : R,
      maxY (fold_left (curveDataStep params) indices acc) = Fin M'
      /\ Forall (boundedSample M')
           (points (fold_left (curveDataStep params) indices acc))
      /\ length (points (fold_left (curveDataStep params) indices acc))
         = (length (points acc) + length indices)%nat.
Proof.
  induction indices as [ | i rest IH]; intros acc M HM Hacc.
  - exists M. cbn. repeat split; try assumption. lia.
  - cbn [fold_left].
    destruct (curveDataStep_bounded M acc i HM Hacc)
      as (M1 & _ & HM1 & Hacc1 & Hlen1).
    destruct (IH _ M1 HM1 Hacc1) as (M' & HM' & Hacc' & Hlen').
    exists M'. repeat split; try assumption.
    rewrite Hlen', Hlen1. cbn [length]. lia.
Qed.

End CurveData.

(** X22: for a positive finite rank count and bandwidth and a finite
    latency, [_generateCurveData] returns 150 samples, each with a finite
    token count of at least 1 and finite LL and HT times of at least
    0.001, and a finite [maxY] that is an upper bound of all these
    times. *)
Theorem _generateCurveData_bounded
    (params : ModelParameters) (P L bw : R) :
  0 < P -> 0 < bw ->
  epRanks params = Fin P -> latencyUs params = Fin L ->
  bandwidthGBps params = Fin bw ->
  let data := _generateCurveData params in
  exists M : R,
    maxY data = Fin M
    /\ length (points data) = 150%nat
    /\ Forall (boundedSample M) (points data).
Proof.
  intros HP Hbw EP EL EB data. subst data. unfold _generateCurveData.
  destruct (curveData_fold_bounded params P L bw HP Hbw EP EL EB
              (seq 0 150) {| points := []; maxY := Fin 0 |} 0)
    as (M & HM & Hall & Hlen); [reflexivity | constructor | ].
  exists M. split; [assumption | ]. split; [ | assumption].
  rewrite Hlen, length_seq. reflexivity.
Qed.

Lemma _generateCurveData_bounded_witness :
  let data :=
    _generateCurveData
      (mkModelParameters (Fin 256) (Fin 16) (Fin 25) (Fin 25) (Fin 0.45)
         (Fin 0.1)) in
  exists M : R,
    maxY data = Fin M
    /\ length (points data) = 150%nat
    /\ Forall (boundedSample M) (points data).
Proof.
  apply (_generateCurveData_bounded
           (mkModelParameters (Fin 256) (Fin 16) (Fin 25) (Fin 25) (Fin 0.45)
              (Fin 0.1)) 16 25 25); try lra; reflexivity.
Defined.
